(** * The property-declaration rewriter pass (rewriter/Prop.cc)

    A shallow embedding of [parseProp], [processProp],
    [mkTStructInitialize] and [Prop::run], followed by the properties the
    specification states about them.

    Conventions of the embedding:
    - a value of type [Expression] stands for a [unique_ptr<ast::Expression>]:
      it is either [nullptr] or an owned node; [deepCopy] is the identity on
      such values, and moving a pointer is passing the value along;
    - every call of an [ast::MK] builder, and of [ASTUtil::mkGet],
      [ASTUtil::mkSet] and [ASTUtil::mkMutator], is kept as a node of the
      same name holding the arguments of the call (ast/Helpers.h and
      rewriter/Util.cc are not among the sources at hand);
    - the remaining collaborators the pass calls but does not define
      (type cloning, options-map queries, the debug switch of [ENFORCE]) are
      the fields of the class [Env]; every theorem holds for any [Env];
    - diagnostics are the trace of operations performed on the error sink. *)

From Stdlib Require Import Ascii.
From stdpp Require Import base option list gmap strings numbers pretty.

#[local] Open Scope Z_scope.
#[local] Open Scope string_scope.
#[local] Open Scope list_scope.

(** ** core: locations, names, symbols *)

(** [u4] arithmetic: the offsets of a location are unsigned 32-bit. *)
Definition u4 (z : Z) : Z := z mod 2 ^ 32.

Record LocOffsets : Type := mkLocOffsets { beginLoc : Z; endLoc : Z }.

Definition beginPos (l : LocOffsets) : Z := beginLoc l.
Definition endPos (l : LocOffsets) : Z := endLoc l.

Record Loc : Type := mkLoc { loc_file : nat; loc_offsets : LocOffsets }.

(** Modelled from the spec: core::NameRef (core/Names.h is missing), an
    interned identifier.  [noName] is the identifier that does not exist;
    a constant name is kept apart from the identifier spelled alike. *)
Inductive NameRef : Type :=
| noName
| UTF8 (s : string)
| CONSTANT (s : string).

#[global] Instance NameRef_eq_dec : EqDecision NameRef.
Proof. solve_decision. Defined.

Definition exists_ (n : NameRef) : bool :=
  match n with noName => false | _ => true end.

Definition show (n : NameRef) : string :=
  match n with noName => "" | UTF8 s => s | CONSTANT s => s end.

Definition enterNameUTF8 (s : string) : NameRef := UTF8 s.

(** [name.addAt(ctx)]: the instance variable that backs the property. *)
Definition addAt (n : NameRef) : NameRef := enterNameUTF8 (String.append "@" (show n)).

(** [name.addEq(ctx)]: the name of the setter. *)
Definition addEq (n : NameRef) : NameRef := enterNameUTF8 (String.append (show n) "=").

(** Modelled from the spec: the well-known names of core::Names (missing),
    spelled as the macro and option names the pass recognises. *)
Module Names.
Definition prop := UTF8 "prop".
Definition const_ := UTF8 "const".
Definition tokenProp := UTF8 "token_prop".
Definition timestampedTokenProp := UTF8 "timestamped_token_prop".
Definition createdProp := UTF8 "created_prop".
Definition merchantProp := UTF8 "merchant_prop".
Definition token := UTF8 "token".
Definition created := UTF8 "created".
Definition merchant := UTF8 "merchant".
Definition nilable := UTF8 "nilable".
Definition immutable := UTF8 "immutable".
Definition factory := UTF8 "factory".
Definition default_ := UTF8 "default".
Definition computedBy := UTF8 "computed_by".
Definition foreign := UTF8 "foreign".
Definition ifunset := UTF8 "ifunset".
Definition class_ := UTF8 "class".
Definition arg0 := UTF8 "arg0".
Definition opts := UTF8 "opts".
Definition squareBrackets := UTF8 "[]".
Definition initialize := UTF8 "initialize".
Definition lambda := UTF8 "lambda".
Definition proc := UTF8 "proc".
Module Constants.
Definition T := CONSTANT "T".
Definition Struct := CONSTANT "Struct".
Definition HashMutator := CONSTANT "HashMutator".
Definition ArrayMutator := CONSTANT "ArrayMutator".
Definition Mutator := CONSTANT "Mutator".
End Constants.
End Names.

(** Modelled from the spec: core::SymbolRef (missing), the symbol-table
    entries of the well-known marker types. *)
Inductive SymbolRef : Type :=
| Sym_root
| Sym_String
| Sym_Float
| Sym_Hash
| Sym_Array
| Sym_other (id : nat).

#[global] Instance SymbolRef_eq_dec : EqDecision SymbolRef.
Proof. solve_decision. Defined.

Module Symbols.
Definition root := Sym_root.
Definition String := Sym_String.
Definition Float := Sym_Float.
Definition Hash := Sym_Hash.
Definition Array := Sym_Array.
End Symbols.

(** The two classes of diagnostics the pass reports (core/errors/rewriter.h). *)
Inductive ErrorClass : Type :=
| ComputedBySymbol
| PropForeignStrict.

(** ** ast: expressions *)

(** The value a literal node holds; [isSymbol] and [asSymbol] read it. *)
Inductive LiteralValue : Type :=
| LitSymbol (n : NameRef)
| LitString (n : NameRef)
| LitInteger (z : Z)
| LitNil
| LitTrue
| LitFalse.

(** A [unique_ptr<ast::Expression>].  The first group are the node classes
    the pass inspects through [cast_tree] and [isa_tree]; the second group
    are the trees the pass builds, one constructor per builder. *)
#[warnings="-register-all"] Inductive Expression : Type :=
| nullptr
| EmptyTree
| Send (loc : LocOffsets) (recv : Expression) (fun_ : NameRef)
       (args : list Expression) (block : Expression)
| Block (loc : LocOffsets) (params : list Expression) (body : Expression)
| Literal (loc : LocOffsets) (value : LiteralValue)
| UnresolvedConstantLit (loc : LocOffsets) (scope : Expression) (cnst : NameRef)
| ConstantLit (loc : LocOffsets) (symbol : SymbolRef) (original : Expression)
| Hash (loc : LocOffsets) (keys values : list Expression)
(* ast::MK *)
| MK_EmptyTree
| MK_Constant (loc : LocOffsets) (symbol : SymbolRef)
| MK_UnresolvedConstant (loc : LocOffsets) (scope : Expression) (name : NameRef)
| MK_Nil (loc : LocOffsets)
| MK_Self (loc : LocOffsets)
| MK_Symbol (loc : LocOffsets) (name : NameRef)
| MK_Local (loc : LocOffsets) (name : NameRef)
| MK_Instance (loc : LocOffsets) (name : NameRef)
| MK_Untyped (loc : LocOffsets)
| MK_Nilable (loc : LocOffsets) (arg : Expression)
| MK_Unsafe (loc : LocOffsets) (inner : Expression)
| MK_AssertType (loc : LocOffsets) (value type : Expression)
| MK_RaiseUnimplemented (loc : LocOffsets)
| MK_ZSuper (loc : LocOffsets)
| MK_Assign (loc : LocOffsets) (lhs rhs : Expression)
| MK_Send0 (loc : LocOffsets) (recv : Expression) (fun_ : NameRef)
| MK_Send1 (loc : LocOffsets) (recv : Expression) (fun_ : NameRef)
           (arg1 : Expression)
| MK_Send2 (loc : LocOffsets) (recv : Expression) (fun_ : NameRef)
           (arg1 arg2 : Expression)
| MK_Hash (loc : LocOffsets) (keys values : list Expression)
| MK_Hash0 (loc : LocOffsets)
| MK_Hash1 (loc : LocOffsets) (key value : Expression)
| MK_InsSeq (loc : LocOffsets) (stats : list Expression) (expr : Expression)
| MK_InsSeq1 (loc : LocOffsets) (stat expr : Expression)
| MK_Sig (loc : LocOffsets) (params ret : Expression)
| MK_Sig0 (loc : LocOffsets) (ret : Expression)
| MK_Sig1 (loc : LocOffsets) (key value ret : Expression)
| MK_SigVoid (loc : LocOffsets) (params : Expression)
| MK_KeywordArg (loc : LocOffsets) (inner : Expression)
| MK_OptionalArg (loc : LocOffsets) (inner default : Expression)
| MK_RestArg (loc : LocOffsets) (inner : Expression)
| MK_SyntheticMethod (loc : LocOffsets) (declLoc : Loc) (name : NameRef)
                     (args : list Expression) (rhs : Expression)
| MK_SyntheticMethod1 (loc : LocOffsets) (declLoc : Loc) (name : NameRef)
                      (arg0 : Expression) (rhs : Expression)
| MK_Class (loc : LocOffsets) (declLoc : Loc) (name : Expression)
           (ancestors rhs : list Expression)
(* ASTUtil *)
| mkGet (loc : LocOffsets) (name : NameRef) (rhs : Expression)
| mkSet (loc : LocOffsets) (name : NameRef) (argLoc : LocOffsets)
        (rhs : Expression)
| mkMutator (loc : LocOffsets) (className : NameRef).

Definition isNull (e : Expression) : bool :=
  match e with nullptr => true | _ => false end.

(** [tree->deepCopy()]: an independent copy, equal as a value. *)
Definition deepCopy (e : Expression) : Expression := e.

(** The nodes the pass reads fields of, after a successful [cast_tree]. *)
Record SendNode : Type := mkSendNode {
  send_loc : LocOffsets;
  send_recv : Expression;
  send_fun : NameRef;
  send_args : list Expression;
  send_block : Expression }.

Record HashNode : Type := mkHashNode {
  hash_loc : LocOffsets;
  hash_keys : list Expression;
  hash_values : list Expression }.

Record ClassDef : Type := mkClassDef {
  klass_loc : LocOffsets;
  klass_name : Expression;
  klass_ancestors : list Expression;
  klass_rhs : list Expression }.

Definition cast_Send (e : Expression) : option SendNode :=
  match e with
  | Send l r f a b => Some (mkSendNode l r f a b)
  | _ => None
  end.

Definition cast_Hash (e : Expression) : option HashNode :=
  match e with
  | Hash l k v => Some (mkHashNode l k v)
  | _ => None
  end.

(** [cast_tree<ast::Literal>(e)] followed by [isSymbol] and [asSymbol]:
    the identifier of a symbol literal, nothing for any other tree. *)
Definition symbolLit (e : Expression) : option (LocOffsets * NameRef) :=
  match e with
  | Literal l (LitSymbol n) => Some (l, n)
  | _ => None
  end.

(** [vec[i]] of a vector of owned trees.  The pass indexes only below the
    size it has just tested; out of range the model yields [nullptr]. *)
Definition at_ (v : list Expression) (i : nat) : Expression :=
  default nullptr (v !! i).

(** [vec.back()], under the same proviso. *)
Definition back (v : list Expression) : Expression :=
  default nullptr (list.last v).

(** ** The analysis context and the error sink *)

(** The operations the pass performs on the error sink, in order:
    [ctx.beginError(loc, what)], then on the builder it returns, when that
    builder is live, [setHeader(format, argument)] and
    [replaceWith(title, loc, format, argument)]. *)
Inductive SinkOp : Type :=
| BeginError (loc : LocOffsets) (what : ErrorClass)
| SetHeader (format argument : string)
| ReplaceWith (title : string) (loc : Loc) (format argument : string).

(** What the pass reads of a [core::MutableContext]: the file under
    analysis, the autogeneration flag of the global state, whether the sink
    hands out a live builder for a diagnostic, and the source text of a
    location. *)
Record Context : Type := mkContext {
  file : nat;
  runningUnderAutogen : bool;
  errorGranted : LocOffsets -> ErrorClass -> bool;
  source : Loc -> string }.

(** The result of running a piece of the pass: either it returns a value,
    having performed some operations on the error sink, or a failed
    [ENFORCE] has stopped the process. *)
Inductive Outcome (A : Type) : Type :=
| Returns (a : A) (ops : list SinkOp)
| Aborts (message : string).

Arguments Returns {A} a ops.
Arguments Aborts {A} message.

Definition pure {A : Type} (a : A) : Outcome A := Returns a [].

Definition bind {A B : Type} (m : Outcome A) (k : A -> Outcome B) : Outcome B :=
  match m with
  | Returns a ops =>
      match k a with
      | Returns b ops' => Returns b (ops ++ ops')
      | Aborts msg => Aborts msg
      end
  | Aborts msg => Aborts msg
  end.

Notation "x <- m ;; k" := (bind m (fun x => k))
  (at level 100, m at next level, right associativity).
Notation "m ;;; k" := (bind m (fun _ => k))
  (at level 100, right associativity).

Definition tell (ops : list SinkOp) : Outcome unit := Returns tt ops.

(** [if (auto e = ctx.beginError(loc, what)) { body }]: the sink is always
    asked; [body] runs on the builder only when the sink grants one. *)
Definition beginError (ctx : Context) (loc : LocOffsets) (what : ErrorClass)
    (body : list SinkOp) : Outcome unit :=
  tell (BeginError loc what :: if errorGranted ctx loc what then body else []).

(** The sink operations of an outcome. *)
Definition emitted {A : Type} (m : Outcome A) : list SinkOp :=
  match m with Returns _ ops => ops | Aborts _ => [] end.

(** ** Collaborators of the pass *)

(** The functions and constants the pass uses and the sources at hand do
    not define.  [extractHashValue] removes the entry it returns from the
    map it is given, so it also returns the map that is left. *)
Class Env : Type := mkEnv {
  (* common/common.h: ENFORCE checks its condition only in debug builds *)
  debug_mode : bool;
  (* core/Loc.h: the location of a tree that has none *)
  LocOffsets_none : LocOffsets;
  (* rewriter/Util.h *)
  dupType : Expression -> Expression;
  hasHashValue : Context -> HashNode -> NameRef -> bool;
  hasTruthyHashValue : Context -> HashNode -> NameRef -> bool;
  extractHashValue :
    Context -> HashNode -> NameRef -> (Expression * Expression) * HashNode;
  thunkBody : Context -> Expression -> Expression;
  isProbablySymbol : Context -> Expression -> SymbolRef -> bool }.

(** ** The pass *)

Definition empty_ (v : list Expression) : bool :=
  match v with [] => true | _ => false end.

(** [!text.empty() && text[0] == ':'] *)
Definition startsWithColon (text : string) : bool :=
  match text with
  | String c _ => Ascii.eqb c ":"%char
  | EmptyString => false
  end.

Record PropInfo : Type := mkPropInfo {
  loc : LocOffsets;
  isImmutable : bool;
  name : NameRef;
  nameLoc : LocOffsets;
  type : Expression;
  default_ : Expression;
  computedByMethodName : NameRef;
  computedByMethodNameLoc : LocOffsets;
  foreign : Expression;
  ifunset : Expression }.

Definition set_isImmutable (b : bool) (p : PropInfo) : PropInfo :=
  mkPropInfo (loc p) b (name p) (nameLoc p) (type p) (default_ p)
    (computedByMethodName p) (computedByMethodNameLoc p) (foreign p) (ifunset p).

Definition set_name (n : NameRef) (l : LocOffsets) (p : PropInfo) : PropInfo :=
  mkPropInfo (loc p) (isImmutable p) n l (type p) (default_ p)
    (computedByMethodName p) (computedByMethodNameLoc p) (foreign p) (ifunset p).

Definition set_type (t : Expression) (p : PropInfo) : PropInfo :=
  mkPropInfo (loc p) (isImmutable p) (name p) (nameLoc p) t (default_ p)
    (computedByMethodName p) (computedByMethodNameLoc p) (foreign p) (ifunset p).

Definition set_default_ (d : Expression) (p : PropInfo) : PropInfo :=
  mkPropInfo (loc p) (isImmutable p) (name p) (nameLoc p) (type p) d
    (computedByMethodName p) (computedByMethodNameLoc p) (foreign p) (ifunset p).

Definition set_computedBy (l : LocOffsets) (n : NameRef) (p : PropInfo) : PropInfo :=
  mkPropInfo (loc p) (isImmutable p) (name p) (nameLoc p) (type p) (default_ p)
    n l (foreign p) (ifunset p).

Definition set_foreign (f : Expression) (p : PropInfo) : PropInfo :=
  mkPropInfo (loc p) (isImmutable p) (name p) (nameLoc p) (type p) (default_ p)
    (computedByMethodName p) (computedByMethodNameLoc p) f (ifunset p).

Definition set_ifunset (u : Expression) (p : PropInfo) : PropInfo :=
  mkPropInfo (loc p) (isImmutable p) (name p) (nameLoc p) (type p) (default_ p)
    (computedByMethodName p) (computedByMethodNameLoc p) (foreign p) u.

(** [isT]: is the expression [T], unscoped or with the root scope. *)
Definition isT (expr : Expression) : bool :=
  match expr with
  | UnresolvedConstantLit _ scope cnst =>
      if negb (bool_decide (cnst = Names.Constants.T)) then false
      else
        match scope with
        | EmptyTree => true
        | ConstantLit _ symbol _ => bool_decide (symbol = Symbols.root)
        | _ => false
        end
  | _ => false
  end.

Definition isTNilable (expr : Expression) : bool :=
  match expr with
  | Send _ recv fun_ _ _ => bool_decide (fun_ = Names.nilable) && isT recv
  | _ => false
  end.

Definition isTStruct (expr : Expression) : bool :=
  match expr with
  | UnresolvedConstantLit _ scope cnst =>
      bool_decide (cnst = Names.Constants.Struct) && isT scope
  | _ => false
  end.

Section Pass.
Context {env : Env}.

(** [ENFORCE(condition, message)] *)
Definition ENFORCE (condition : bool) (message : string) : Outcome unit :=
  if debug_mode && negb condition then Aborts message else pure tt.

(** [tree->loc].  A tree without a location, and the null pointer (which
    the pass dereferences only if a map query hands one out for a key it
    has reported present), read as the location that is none. *)
Definition exprLoc (e : Expression) : LocOffsets :=
  match e with
  | nullptr | EmptyTree | MK_EmptyTree => LocOffsets_none
  | Send l _ _ _ _ | Block l _ _ | Literal l _ | UnresolvedConstantLit l _ _
  | ConstantLit l _ _ | Hash l _ _ | MK_Constant l _
  | MK_UnresolvedConstant l _ _ | MK_Nil l | MK_Self l | MK_Symbol l _
  | MK_Local l _ | MK_Instance l _ | MK_Untyped l | MK_Nilable l _
  | MK_Unsafe l _ | MK_AssertType l _ _ | MK_RaiseUnimplemented l
  | MK_ZSuper l | MK_Assign l _ _ | MK_Send0 l _ _ | MK_Send1 l _ _ _
  | MK_Send2 l _ _ _ _ | MK_Hash l _ _ | MK_Hash0 l | MK_Hash1 l _ _
  | MK_InsSeq l _ _ | MK_InsSeq1 l _ _ | MK_Sig l _ _ | MK_Sig0 l _
  | MK_Sig1 l _ _ _ | MK_SigVoid l _ | MK_KeywordArg l _
  | MK_OptionalArg l _ _ | MK_RestArg l _ | MK_SyntheticMethod l _ _ _ _
  | MK_SyntheticMethod1 l _ _ _ _ | MK_Class l _ _ _ _ | mkGet l _ _
  | mkSet l _ _ _ | mkMutator l _ => l
  end.

(** [PropInfo ret; ret.loc = send->loc;]: the record as declared, with
    its default member values. *)
Definition PropInfo_new (l : LocOffsets) : PropInfo :=
  {| loc := l; isImmutable := false; name := noName;
     nameLoc := LocOffsets_none; type := nullptr; default_ := nullptr;
     computedByMethodName := noName;
     computedByMethodNameLoc := LocOffsets_none;
     foreign := nullptr; ifunset := nullptr |}.

(** parseProp, "Is this a send we care about?": the switch on the name of
    the called function; [None] is its [default: return nullopt]. *)
Definition selectMacro (send : SendNode) (ret : PropInfo) : option PropInfo :=
  let f := send_fun send in
  let sloc := send_loc send in
  if bool_decide (f = Names.prop) then Some ret
  else if bool_decide (f = Names.const_) then Some (set_isImmutable true ret)
  else if bool_decide (f = Names.tokenProp)
          || bool_decide (f = Names.timestampedTokenProp) then
    let ret := set_name Names.token
      (mkLocOffsets
         (u4 (beginPos sloc +
              (if bool_decide (f = Names.timestampedTokenProp) then 12 else 0)))
         (u4 (endPos sloc - 5))) ret in
    Some (set_type (MK_Constant sloc Symbols.String) ret)
  else if bool_decide (f = Names.createdProp) then
    let ret := set_name Names.created
      (mkLocOffsets (beginPos sloc) (u4 (endPos sloc - 5))) ret in
    Some (set_type (MK_Constant sloc Symbols.Float) ret)
  else if bool_decide (f = Names.merchantProp) then
    let ret := set_isImmutable true ret in
    let ret := set_name Names.merchant
      (mkLocOffsets (beginPos sloc) (u4 (endPos sloc - 5))) ret in
    Some (set_type (MK_Constant sloc Symbols.String) ret)
  else None.

(** parseProp, "What's the prop's name?" *)
Definition propName (ctx : Context) (send : SendNode) (ret : PropInfo)
    : Outcome (option PropInfo) :=
  if negb (exists_ (name ret)) then
    if empty_ (send_args send) then pure None
    else
      match symbolLit (at_ (send_args send) 0) with
      | None => pure None
      | Some (symLoc, symName) =>
          ENFORCE (startsWithColon (source ctx (mkLoc (file ctx) symLoc))) "" ;;;
          pure (Some (set_name symName
                        (mkLocOffsets (u4 (beginPos symLoc + 1)) (endPos symLoc))
                        ret))
      end
  else pure (Some ret).

(** parseProp, "What's the prop's type?" *)
Definition propType (send : SendNode) (ret : PropInfo)
    : Outcome (option PropInfo) :=
  let typed :=
    if isNull (type ret) then
      if (length (send_args send) =? 1)%nat then None
      else
        let ret := set_type (dupType (at_ (send_args send) 1)) ret in
        if isNull (type ret) then None else Some ret
    else Some ret in
  match typed with
  | None => pure None
  | Some ret =>
      ENFORCE (negb (isNull (dupType (type ret))))
              "No obvious type AST for this prop" ;;;
      pure (Some ret)
  end.

(** parseProp, "Does the prop have any extra options?": the private copy
    of the trailing map literal, if there is one; the outer [None] is the
    [return std::nullopt] of three arguments and no map. *)
Definition propRules (send : SendNode) : option (option HashNode) :=
  let rules :=
    if negb (empty_ (send_args send)) then
      cast_Hash (deepCopy (back (send_args send)))
    else None in
  if bool_decide (rules = None) && (3 <=? length (send_args send))%nat
  then None else Some rules.

(** parseProp up to "Parse any extra options": the record with its name
    and type, and the private copy of the options map if there is one;
    [None] stands for each [return nullopt]. *)
Definition classify (ctx : Context) (send : SendNode)
    : Outcome (option (PropInfo * option HashNode)) :=
  match selectMacro send (PropInfo_new (send_loc send)) with
  | None => pure None
  | Some ret =>
      if (4 <=? length (send_args send))%nat then
        (* Too many args, even if all optional args were provided. *)
        pure None
      else
        named <- propName ctx send ret ;;
        match named with
        | None => pure None
        | Some ret =>
            typed <- propType send ret ;;
            match typed with
            | None => pure None
            | Some ret =>
                match propRules send with
                | None => pure None
                | Some rules => pure (Some (ret, rules))
                end
            end
        end
  end.

(** "Parse any extra options", the keys [immutable], [factory] and
    [default].  [rules] is the private copy; an [extractHashValue] hands on
    the map it has shortened. *)
Definition rulesDefault (ctx : Context) (rules : HashNode) (ret : PropInfo)
    : PropInfo * HashNode :=
  let ret :=
    if hasTruthyHashValue ctx rules Names.immutable
    then set_isImmutable true ret else ret in
  if hasTruthyHashValue ctx rules Names.factory then
    (set_default_ (MK_RaiseUnimplemented (loc ret)) ret, rules)
  else if hasHashValue ctx rules Names.default_ then
    let '((key, val), rules) := extractHashValue ctx rules Names.default_ in
    (set_default_ val ret, rules)
  else (ret, rules).

(** The key [computed_by], e.g. `const :foo, type, computed_by: :method_name` *)
Definition rulesComputedBy (ctx : Context) (rules : HashNode) (ret : PropInfo)
    : Outcome (PropInfo * HashNode) :=
  if hasTruthyHashValue ctx rules Names.computedBy then
    let '((key, val), rules) := extractHashValue ctx rules Names.computedBy in
    match symbolLit val with
    | Some (litLoc, litName) => pure (set_computedBy litLoc litName ret, rules)
    | None =>
        beginError ctx (exprLoc val) ComputedBySymbol
          [SetHeader "Value for `{}` must be a symbol literal" "computed_by"] ;;;
        pure (ret, rules)
    end
  else pure (ret, rules).

(** The key [foreign]. *)
Definition rulesForeign (ctx : Context) (rules : HashNode) (ret : PropInfo)
    : Outcome (PropInfo * HashNode) :=
  let '((fk, foreignTree), rules) := extractHashValue ctx rules Names.foreign in
  if negb (isNull foreignTree) then
    let ret := set_foreign foreignTree ret in
    let body := thunkBody ctx (foreign ret) in
    if negb (isNull body) then pure (set_foreign body ret, rules)
    else
      beginError ctx (exprLoc (foreign ret)) PropForeignStrict
        [SetHeader "The argument to `{}` must be a lambda" "foreign:";
         ReplaceWith "Convert to lambda"
           (mkLoc (file ctx) (exprLoc (foreign ret))) "-> {{{}}}"
           (source ctx (mkLoc (file ctx) (exprLoc (foreign ret))))] ;;;
      pure (ret, rules)
  else pure (ret, rules).

(** The key [ifunset]. *)
Definition rulesIfunset (ctx : Context) (rules : HashNode) (ret : PropInfo)
    : PropInfo :=
  let '((ifunsetKey, ifunsetTree), rules) :=
    extractHashValue ctx rules Names.ifunset in
  if negb (isNull ifunsetTree) then set_ifunset ifunsetTree ret else ret.

(** The block [if (rules) { ... }] of parseProp. *)
Definition parseRules (ctx : Context) (rules : HashNode) (ret : PropInfo)
    : Outcome PropInfo :=
  let '(ret, rules) := rulesDefault ctx rules ret in
  computed <- rulesComputedBy ctx rules ret ;;
  let '(ret, rules) := computed in
  foreigned <- rulesForeign ctx rules ret ;;
  let '(ret, rules) := foreigned in
  pure (rulesIfunset ctx rules ret).

(** The last step of parseProp: a nilable type with no default yet. *)
Definition nilableDefault (ret : PropInfo) : PropInfo :=
  if isNull (default_ ret) && isTNilable (type ret)
  then set_default_ (MK_Nil (loc ret)) ret else ret.

Definition parseProp (ctx : Context) (send : SendNode)
    : Outcome (option PropInfo) :=
  classified <- classify ctx send ;;
  match classified with
  | None => pure None
  | Some (ret, rules) =>
      ret <- match rules with
             | Some rules => parseRules ctx rules ret
             | None => pure ret
             end ;;
      pure (Some (nilableDefault ret))
  end.

(** processProp, "Compute the Mutator": the statements of the mutator
    class, then the class itself when a mutator type was found. *)
Definition processMutator (ctx : Context) (ret : PropInfo) : list Expression :=
  let loc := loc ret in
  let name := name ret in
  let nameLoc := nameLoc ret in
  let setName := addEq name in
  (* Compute a setter *)
  let setType := dupType (type ret) in
  let rhs :=
    [MK_Sig loc (MK_Hash1 loc (MK_Symbol nameLoc Names.arg0) (dupType setType))
            (dupType setType);
     mkSet loc setName nameLoc (MK_RaiseUnimplemented loc)] in
  (* Maybe make a getter *)
  let mutator :=
    if isProbablySymbol ctx (type ret) Symbols.Hash then
      let mutator := mkMutator loc Names.Constants.HashMutator in
      match type ret with
      | Send _ _ fun_ [arg0; arg1] _ =>
          if bool_decide (fun_ = Names.squareBrackets) then
            MK_Send2 loc mutator Names.squareBrackets (dupType arg0) (dupType arg1)
          else
            MK_Send2 loc mutator Names.squareBrackets (MK_Untyped loc) (MK_Untyped loc)
      | _ =>
          MK_Send2 loc mutator Names.squareBrackets (MK_Untyped loc) (MK_Untyped loc)
      end
    else if isProbablySymbol ctx (type ret) Symbols.Array then
      let mutator := mkMutator loc Names.Constants.ArrayMutator in
      match type ret with
      | Send _ _ fun_ [arg0] _ =>
          if bool_decide (fun_ = Names.squareBrackets) then
            MK_Send1 loc mutator Names.squareBrackets (dupType arg0)
          else MK_Send1 loc mutator Names.squareBrackets (MK_Untyped loc)
      | _ => MK_Send1 loc mutator Names.squareBrackets (MK_Untyped loc)
      end
    else
      (* an UnresolvedConstantLit, or anything else: left to
         method_missing.rbi *)
      nullptr in
  if negb (isNull mutator) then
    let rhs := rhs ++ [MK_Sig0 loc (dupType mutator);
                       mkGet loc name (MK_RaiseUnimplemented loc)] in
    let ancestors : list Expression := [] in
    let name := Names.Constants.Mutator in
    [MK_Class loc (mkLoc (file ctx) loc)
              (MK_UnresolvedConstant loc MK_EmptyTree name) ancestors rhs]
  else [].

(** processProp, the getter: the sig and the reader method. *)
Definition processGetter (ret : PropInfo) (forTStruct : bool) : list Expression :=
  let loc := loc ret in
  let name := name ret in
  let nameLoc := nameLoc ret in
  let getType := dupType (type ret) in
  let computedByMethodName := computedByMethodName ret in
  let computedByMethodNameLoc := computedByMethodNameLoc ret in
  let varName := addAt name in
  [MK_Sig loc (MK_Hash0 loc) (dupType getType);
   if exists_ computedByMethodName then
     let selfSendClass := MK_Send0 computedByMethodNameLoc (MK_Self loc) Names.class_ in
     let unsafeNil := MK_Unsafe computedByMethodNameLoc (MK_Nil computedByMethodNameLoc) in
     let sendComputedMethod :=
       MK_Send1 computedByMethodNameLoc selfSendClass computedByMethodName unsafeNil in
     let assertTypeMatches :=
       MK_AssertType computedByMethodNameLoc sendComputedMethod (dupType getType) in
     let insSeq := MK_InsSeq1 loc assertTypeMatches (MK_RaiseUnimplemented loc) in
     mkGet loc name insSeq
   else if isNull (ifunset ret) && forTStruct then
     mkGet loc name (MK_Instance nameLoc varName)
   else mkGet loc name (MK_RaiseUnimplemented loc)].

(** processProp, "Compute the setter" *)
Definition processSetter (ret : PropInfo) : list Expression :=
  let loc := loc ret in
  let nameLoc := nameLoc ret in
  let setName := addEq (name ret) in
  if negb (isImmutable ret) then
    let setType := dupType (type ret) in
    [MK_Sig loc (MK_Hash1 loc (MK_Symbol nameLoc Names.arg0) (dupType setType))
            (dupType setType);
     mkSet loc setName nameLoc (MK_RaiseUnimplemented loc)]
  else [].

(** processProp, "Compute the `_` foreign accessor" *)
Definition processForeign (ctx : Context) (ret : PropInfo) : list Expression :=
  let loc := loc ret in
  let name := name ret in
  let nameLoc := nameLoc ret in
  if negb (isNull (foreign ret)) then
    let '(type, nonNilType) :=
      if isNull (dupType (foreign ret)) then
        (* If it's not a valid type, just use untyped *)
        (MK_Untyped loc, MK_Untyped loc)
      else (MK_Nilable loc (dupType (foreign ret)), dupType (foreign ret)) in
    let fkMethod := enterNameUTF8 (String.append (show name) "_") in
    let arg := MK_RestArg nameLoc (MK_KeywordArg nameLoc (MK_Local nameLoc Names.opts)) in
    let fkMethodBang := enterNameUTF8 (String.append (show name) "_!") in
    let arg2 := MK_RestArg nameLoc (MK_KeywordArg nameLoc (MK_Local nameLoc Names.opts)) in
    [MK_Sig1 loc (MK_Symbol nameLoc Names.opts) (MK_Untyped loc) type;
     MK_SyntheticMethod1 loc (mkLoc (file ctx) loc) fkMethod arg
                         (MK_RaiseUnimplemented loc);
     MK_Sig1 loc (MK_Symbol nameLoc Names.opts) (MK_Untyped loc) nonNilType;
     MK_SyntheticMethod1 loc (mkLoc (file ctx) loc) fkMethodBang arg2
                         (MK_RaiseUnimplemented loc)]
  else [].

(** processProp: [nodes] grows by [emplace_back] through the four parts. *)
Definition processProp (ctx : Context) (ret : PropInfo) (forTStruct : bool)
    : list Expression :=
  let nodes : list Expression := [] in
  let nodes := nodes ++ processGetter ret forTStruct in
  let nodes := nodes ++ processSetter ret in
  let nodes := nodes ++ processForeign ctx ret in
  let nodes := nodes ++ processMutator ctx ret in
  nodes.

(** The three vectors mkTStructInitialize fills in its first two loops. *)
Record InitParams : Type := mkInitParams {
  args : list Expression;
  sigKeys : list Expression;
  sigVals : list Expression }.

(** Body of the loop "add all the required props first". *)
Definition addRequired (acc : InitParams) (prop : PropInfo) : InitParams :=
  if negb (isNull (default_ prop)) then acc (* continue *)
  else
    let loc := loc prop in
    {| args := args acc ++ [MK_KeywordArg loc (MK_Local loc (name prop))];
       sigKeys := sigKeys acc ++ [MK_Symbol loc (name prop)];
       sigVals := sigVals acc ++ [deepCopy (type prop)] |}.

(** Body of the loop "then, add all the optional props". *)
Definition addOptional (acc : InitParams) (prop : PropInfo) : InitParams :=
  if isNull (default_ prop) then acc (* continue *)
  else
    let loc := loc prop in
    {| args := args acc ++
         [MK_OptionalArg loc (MK_KeywordArg loc (MK_Local loc (name prop)))
                         (deepCopy (default_ prop))];
       sigKeys := sigKeys acc ++ [MK_Symbol loc (name prop)];
       sigVals := sigVals acc ++ [deepCopy (type prop)] |}.

(** Body of the loop "then initialize all the instance variables". *)
Definition addAssign (stats : list Expression) (prop : PropInfo)
    : list Expression :=
  let varName := addAt (name prop) in
  stats ++ [MK_Assign (loc prop) (MK_Instance (nameLoc prop) varName)
                      (MK_Local (nameLoc prop) (name prop))].

Definition initParams (props : list PropInfo) : InitParams :=
  let acc := mkInitParams [] [] [] in
  let acc := foldl addRequired acc props in
  foldl addOptional acc props.

Definition initBody (klassLoc : LocOffsets) (props : list PropInfo)
    : Expression :=
  let stats := foldl addAssign [] props in
  MK_InsSeq klassLoc stats (MK_ZSuper klassLoc).

Definition mkTStructInitialize (ctx : Context) (klassLoc : LocOffsets)
    (props : list PropInfo) : list Expression :=
  let acc := initParams props in
  let body := initBody klassLoc props in
  [MK_SigVoid klassLoc (MK_Hash klassLoc (sigKeys acc) (sigVals acc));
   MK_SyntheticMethod klassLoc (mkLoc (file ctx) klassLoc) Names.initialize
                      (args acc) body].

(** What the first loop of Prop::run accumulates.  [replaceNodes] is keyed
    by the address of a statement; a statement is owned by one slot of the
    class body, so its address is identified with the index of that slot. *)
Record Scan : Type := mkScan {
  replaceNodes : gmap nat (list Expression);
  props : list PropInfo }.

(** Body of the first loop of Prop::run, for the statement at [addr]. *)
Definition scanStat (ctx : Context) (forTStruct : bool) (acc : Scan)
    (addr : nat) (stat : Expression) : Outcome Scan :=
  match cast_Send stat with
  | None => pure acc (* continue *)
  | Some send =>
      propInfo <- parseProp ctx send ;;
      match propInfo with
      | None => pure acc (* continue *)
      | Some propInfo =>
          let nodes := processProp ctx propInfo forTStruct in
          ENFORCE (negb (empty_ nodes))
            "if parseProp completed successfully, processProp must complete too" ;;;
          pure {| replaceNodes := <[addr := nodes]> (replaceNodes acc);
                  props := props acc ++ [propInfo] |}
      end
  end.

Fixpoint scan (ctx : Context) (forTStruct : bool) (addr : nat)
    (stats : list Expression) (acc : Scan) : Outcome Scan :=
  match stats with
  | [] => pure acc
  | stat :: stats =>
      acc <- scanStat ctx forTStruct acc addr stat ;;
      scan ctx forTStruct (S addr) stats acc
  end.

(** The last loop of Prop::run: [rhs] is the new body under construction. *)
Fixpoint rebuild (replaceNodes : gmap nat (list Expression)) (addr : nat)
    (oldRHS : list Expression) (rhs : list Expression) : list Expression :=
  match oldRHS with
  | [] => rhs
  | stat :: oldRHS =>
      let rhs :=
        match replaceNodes !! addr with
        | None => rhs ++ [stat]
        | Some newNodes => rhs ++ newNodes
        end in
      rebuild replaceNodes (S addr) oldRHS rhs
  end.

(** Prop::run; the class it returns is [klass] after the call. *)
Definition run (ctx : Context) (klass : ClassDef) : Outcome ClassDef :=
  if runningUnderAutogen ctx then pure klass
  else
    let forTStruct := existsb isTStruct (klass_ancestors klass) in
    scanned <- scan ctx forTStruct 0 (klass_rhs klass) (mkScan ∅ []) ;;
    let oldRHS := klass_rhs klass in
    let rhs : list Expression := [] in
    let rhs :=
      if forTStruct then
        (* we define our synthesized initialize first so that if the user
           wrote one themselves, it overrides ours. *)
        rhs ++ mkTStructInitialize ctx (klass_loc klass) (props scanned)
      else rhs in
    let rhs := rebuild (replaceNodes scanned) 0 oldRHS rhs in
    pure (mkClassDef (klass_loc klass) (klass_name klass)
                     (klass_ancestors klass) rhs).
End Pass.


(** ** A reference environment

    One concrete choice of the collaborators, used where a statement is
    evaluated on a concrete class body. *)

(** Modelled from the spec: ASTUtil::dupType (rewriter/Util.cc is missing),
    the predicate "is this expression structurally a valid type expression"
    joined with the clone: constant references, and calls on a type whose
    arguments are types, together with the trees the pass itself builds as
    types; the copy of such a tree, [nullptr] for anything else. *)
Fixpoint isTypeExpr (e : Expression) : bool :=
  match e with
  | Send _ recv _ args _ => isTypeExpr recv && forallb isTypeExpr args
  | ConstantLit _ _ _ => true
  | UnresolvedConstantLit _ scope _ =>
      match scope with
      | EmptyTree => true
      | ConstantLit _ _ _ => true
      | UnresolvedConstantLit _ _ _ => isTypeExpr scope
      | _ => false
      end
  | MK_Constant _ _ => true
  | MK_Untyped _ => true
  | mkMutator _ _ => true
  | MK_Send1 _ recv _ a => isTypeExpr recv && isTypeExpr a
  | MK_Send2 _ recv _ a b => isTypeExpr recv && isTypeExpr a && isTypeExpr b
  | _ => false
  end.

Definition ref_dupType (e : Expression) : Expression :=
  if isTypeExpr e then deepCopy e else nullptr.

(** Position of the first key that is the symbol literal [name]. *)
Fixpoint findKey (keys : list Expression) (name : NameRef) : option nat :=
  match keys with
  | [] => None
  | key :: keys =>
      match symbolLit key with
      | Some (_, n) =>
          if bool_decide (n = name) then Some 0%nat else S <$> findKey keys name
      | None => S <$> findKey keys name
      end
  end.

(** Modelled from the spec: ASTUtil::hasHashValue (missing): the options
    map has an entry under the key. *)
Definition ref_hasHashValue (ctx : Context) (hash : HashNode) (name : NameRef)
    : bool :=
  bool_decide (is_Some (findKey (hash_keys hash) name)).

(** Modelled from the spec: ASTUtil::hasTruthyHashValue (missing): the
    options map has an entry under the key whose value is truthy, that is,
    anything but the literals nil and false. *)
Definition ref_hasTruthyHashValue (ctx : Context) (hash : HashNode)
    (name : NameRef) : bool :=
  match findKey (hash_keys hash) name with
  | Some i =>
      match at_ (hash_values hash) i with
      | Literal _ LitNil | Literal _ LitFalse => false
      | _ => true
      end
  | None => false
  end.

(** Modelled from the spec: ASTUtil::extractHashValue (missing): the key
    and the (moved) associated value, taken out of the private copy; two
    null pointers when the key is absent. *)
Definition ref_extractHashValue (ctx : Context) (hash : HashNode)
    (name : NameRef) : (Expression * Expression) * HashNode :=
  match findKey (hash_keys hash) name with
  | Some i =>
      ((at_ (hash_keys hash) i, at_ (hash_values hash) i),
       mkHashNode (hash_loc hash) (delete i (hash_keys hash))
                  (delete i (hash_values hash)))
  | None => ((nullptr, nullptr), hash)
  end.

(** Modelled from the spec: ASTUtil::thunkBody (missing): the body of a
    zero-argument deferred-evaluation expression, [nullptr] for any other
    tree. *)
Definition ref_thunkBody (ctx : Context) (e : Expression) : Expression :=
  match e with
  | Send _ _ f [] (Block _ [] body) =>
      if bool_decide (f = Names.lambda) || bool_decide (f = Names.proc)
      then body else nullptr
  | _ => nullptr
  end.

(** Modelled from the spec: the name under which a well-known marker type
    is written. *)
Definition symbolName (sym : SymbolRef) : NameRef :=
  match sym with
  | Sym_root => noName
  | Sym_String => CONSTANT "String"
  | Sym_Float => CONSTANT "Float"
  | Sym_Hash => CONSTANT "Hash"
  | Sym_Array => CONSTANT "Array"
  | Sym_other _ => noName
  end.

(** Modelled from the spec: ASTUtil::isProbablySymbol (missing): the type
    is structurally the marker type, written unscoped, under [T] or under
    the root scope, or an instantiation [...[...]] of it. *)
Fixpoint ref_isProbablySymbol (ctx : Context) (type : Expression)
    (sym : SymbolRef) : bool :=
  match type with
  | UnresolvedConstantLit _ scope cnst =>
      bool_decide (cnst = symbolName sym) &&
      match scope with
      | EmptyTree => true
      | UnresolvedConstantLit _ EmptyTree c => bool_decide (c = Names.Constants.T)
      | ConstantLit _ s _ => bool_decide (s = Symbols.root)
      | _ => false
      end
  | Send _ recv f _ _ =>
      bool_decide (f = Names.squareBrackets) && ref_isProbablySymbol ctx recv sym
  | _ => false
  end.

Definition RefEnv : Env :=
  {| debug_mode := true;
     LocOffsets_none := mkLocOffsets 268435455 268435455;
     dupType := ref_dupType;
     hasHashValue := ref_hasHashValue;
     hasTruthyHashValue := ref_hasTruthyHashValue;
     extractHashValue := ref_extractHashValue;
     thunkBody := ref_thunkBody;
     isProbablySymbol := ref_isProbablySymbol |}.

(** A context outside autogeneration mode whose sink grants every
    diagnostic and whose file text reads [:sym] at every location. *)
Definition refCtx : Context :=
  {| file := 0%nat; runningUnderAutogen := false;
     errorGranted := fun _ _ => true; source := fun _ => ":sym" |}.

Definition autogenCtx : Context :=
  {| file := 0%nat; runningUnderAutogen := true;
     errorGranted := fun _ _ => true; source := fun _ => ":sym" |}.

(** Trees of the examples: [at b e] is the span from [b] to [e]. *)
Definition span (b e : Z) : LocOffsets := mkLocOffsets b e.

Definition sym (l : LocOffsets) (s : string) : Expression :=
  Literal l (LitSymbol (UTF8 s)).

Definition cnst (l : LocOffsets) (s : string) : Expression :=
  UnresolvedConstantLit l EmptyTree (CONSTANT s).

(** [T.nilable(arg)] *)
Definition tNilable (l : LocOffsets) (arg : Expression) : Expression :=
  Send l (cnst l "T") Names.nilable [arg] nullptr.

(** A macro call on self: [fun_ args...] *)
Definition call (l : LocOffsets) (fun_ : NameRef) (args : list Expression)
    : SendNode :=
  mkSendNode l EmptyTree fun_ args nullptr.

Definition callStat (l : LocOffsets) (fun_ : NameRef) (args : list Expression)
    : Expression :=
  Send l EmptyTree fun_ args nullptr.


(** ** Vocabulary of the statements *)

Section Vocabulary.
Context {env : Env}.

(** A nested class named [Mutator], as processProp builds it. *)
Definition isMutatorClass (e : Expression) : bool :=
  match e with
  | MK_Class _ _ (MK_UnresolvedConstant _ MK_EmptyTree n) _ _ =>
      bool_decide (n = Names.Constants.Mutator)
  | _ => false
  end.

(** The sig and the setter of a property, as the class and the mutator
    class hold them. *)
Definition setterSig (ret : PropInfo) : Expression :=
  MK_Sig (loc ret)
    (MK_Hash1 (loc ret) (MK_Symbol (nameLoc ret) Names.arg0)
       (dupType (dupType (type ret))))
    (dupType (dupType (type ret))).

Definition setterDef (ret : PropInfo) : Expression :=
  mkSet (loc ret) (addEq (name ret)) (nameLoc ret) (MK_RaiseUnimplemented (loc ret)).

(** The mutator class of a property whose accessor returns the proxy type
    [m]: the sig and setter, then the sig and getter of the accessor. *)
Definition mutatorClass (ctx : Context) (ret : PropInfo) (m : Expression)
    : Expression :=
  MK_Class (loc ret) (mkLoc (file ctx) (loc ret))
    (MK_UnresolvedConstant (loc ret) MK_EmptyTree Names.Constants.Mutator) []
    [setterSig ret; setterDef ret;
     MK_Sig0 (loc ret) (dupType m);
     mkGet (loc ret) (name ret) (MK_RaiseUnimplemented (loc ret))].

(** The declared type is, as far as the pass can tell, one of the two
    collection types. *)
Definition isCollectionType (ctx : Context) (ret : PropInfo) : bool :=
  isProbablySymbol ctx (type ret) Symbols.Hash ||
  isProbablySymbol ctx (type ret) Symbols.Array.

(** The two partitions of the records of a class. *)
Definition requiredProps (props : list PropInfo) : list PropInfo :=
  List.filter (fun p => isNull (default_ p)) props.

Definition optionalProps (props : list PropInfo) : list PropInfo :=
  List.filter (fun p => negb (isNull (default_ p))) props.

(** What a record contributes to the constructor. *)
Definition requiredArg (p : PropInfo) : Expression :=
  MK_KeywordArg (loc p) (MK_Local (loc p) (name p)).

Definition optionalArg (p : PropInfo) : Expression :=
  MK_OptionalArg (loc p) (MK_KeywordArg (loc p) (MK_Local (loc p) (name p)))
                 (default_ p).

Definition sigKey (p : PropInfo) : Expression := MK_Symbol (loc p) (name p).

Definition fieldAssign (p : PropInfo) : Expression :=
  MK_Assign (loc p) (MK_Instance (nameLoc p) (addAt (name p)))
            (MK_Local (nameLoc p) (name p)).

(** The record of a statement of the class body, when it is a recognised
    property declaration. *)
Definition recordOf (ctx : Context) (stat : Expression) : option PropInfo :=
  match cast_Send stat with
  | Some send =>
      match parseProp ctx send with
      | Returns (Some propInfo) _ => Some propInfo
      | _ => None
      end
  | None => None
  end.

(** The replacement sequence stored for a statement, if any. *)
Definition storedReplacement (ctx : Context) (forTStruct : bool)
    (stat : Expression) : option (list Expression) :=
  match recordOf ctx stat with
  | Some propInfo => Some (processProp ctx propInfo forTStruct)
  | None => None
  end.

(** In the words of the spec: a statement is emitted unchanged when it has
    no stored replacement, and its stored replacement sequence otherwise. *)
Definition spec_emit (ctx : Context) (forTStruct : bool) (stat : Expression)
    : list Expression :=
  match storedReplacement ctx forTStruct stat with
  | None => [stat]
  | Some newNodes => newNodes
  end.

(** In the words of the spec: one traversal of the original statement
    order, emitting for each statement in turn. *)
Definition spec_rebuilt (ctx : Context) (forTStruct : bool)
    (stats : list Expression) : list Expression :=
  concat (map (spec_emit ctx forTStruct) stats).

(** Classification of the statement runs to its end: no [ENFORCE] fails. *)
Definition classifies (ctx : Context) (stat : Expression) : bool :=
  match cast_Send stat with
  | Some send =>
      match parseProp ctx send with Returns _ _ => true | Aborts _ => false end
  | None => true
  end.

(** The sink operations of classifying one statement. *)
Definition statOps (ctx : Context) (stat : Expression) : list SinkOp :=
  match cast_Send stat with
  | Some send => emitted (parseProp ctx send)
  | None => []
  end.

(** A call through one of the two token-property aliases. *)
Definition isTokenAlias (f : NameRef) : bool :=
  bool_decide (f = Names.tokenProp) || bool_decide (f = Names.timestampedTokenProp).

(** The getter body processProp chooses, by priority. *)
Definition computedGetterBody (ret : PropInfo) : Expression :=
  let l := computedByMethodNameLoc ret in
  MK_InsSeq1 (loc ret)
    (MK_AssertType l
       (MK_Send1 l (MK_Send0 l (MK_Self (loc ret)) Names.class_)
                 (computedByMethodName ret) (MK_Unsafe l (MK_Nil l)))
       (dupType (dupType (type ret))))
    (MK_RaiseUnimplemented (loc ret)).

(** The fields of a record that no option of the map changes. *)
Definition sameDeclaration (p q : PropInfo) : Prop :=
  loc q = loc p /\ name q = name p /\ nameLoc q = nameLoc p /\ type q = type p.

End Vocabulary.

(** ** Example declarations *)

(** [const :foo, Foo] *)
Definition constFoo : SendNode :=
  call (span 0 15) Names.const_ [sym (span 6 10) "foo"; cnst (span 12 15) "Foo"].

(** [prop :tags, Array[String]] *)
Definition propTags : SendNode :=
  call (span 0 25) Names.prop
    [sym (span 5 10) "tags";
     Send (span 12 25) (cnst (span 12 17) "Array") Names.squareBrackets
          [cnst (span 18 24) "String"] nullptr].

(** [prop :nick, T.nilable(String)] *)
Definition propNick : SendNode :=
  call (span 0 30) Names.prop
    [sym (span 5 10) "nick"; tNilable (span 12 30) (cnst (span 22 28) "String")].

(** [token_prop :foo] *)
Definition tokenPropFoo : SendNode :=
  call (span 0 15) Names.tokenProp [sym (span 11 15) "foo"].

(** [timestamped_token_prop] *)
Definition timestampedTokenProp0 : SendNode :=
  call (span 0 22) Names.timestampedTokenProp [].

(** [prop :a, A, 1, 2] *)
Definition propFourArgs : Expression :=
  callStat (span 0 20) Names.prop
    [sym (span 5 7) "a"; cnst (span 9 10) "A";
     Literal (span 12 13) (LitInteger 1); Literal (span 15 16) (LitInteger 2)].

(** [const :foo, String, computed_by: value] *)
Definition constComputedBy (value : Expression) : SendNode :=
  call (span 0 40) Names.const_
    [sym (span 6 10) "foo"; cnst (span 12 18) "String";
     Hash (span 20 40) [sym (span 20 31) "computed_by"] [value]].

(** [prop :foo, String, factory: F, default: 1] *)
Definition propFactoryDefault : SendNode :=
  call (span 0 50) Names.prop
    [sym (span 5 9) "foo"; cnst (span 11 17) "String";
     Hash (span 19 50)
       [sym (span 19 26) "factory"; sym (span 30 37) "default"]
       [cnst (span 28 29) "F"; Literal (span 39 40) (LitInteger 1)]].

(** The record of a declaration as classification leaves it under the
    reference environment, before any option is read. *)
Definition declared (l : LocOffsets) (immutable : bool) (s : string)
    (nl : LocOffsets) (t : Expression) : PropInfo :=
  {| loc := l; isImmutable := immutable; name := UTF8 s; nameLoc := nl;
     type := t; default_ := nullptr; computedByMethodName := noName;
     computedByMethodNameLoc := @LocOffsets_none RefEnv;
     foreign := nullptr; ifunset := nullptr |}.

Definition fooDeclared : PropInfo :=
  declared (span 0 15) true "foo" (span 7 10) (cnst (span 12 15) "Foo").

Definition tagsDeclared : PropInfo :=
  declared (span 0 25) false "tags" (span 6 10)
    (Send (span 12 25) (cnst (span 12 17) "Array") Names.squareBrackets
          [cnst (span 18 24) "String"] nullptr).

Definition nickDeclared : PropInfo :=
  declared (span 0 30) false "nick" (span 6 10)
    (tNilable (span 12 30) (cnst (span 22 28) "String")).

Definition computedDeclared : PropInfo :=
  declared (span 0 40) true "foo" (span 7 10) (cnst (span 12 18) "String").

Definition factoryDeclared : PropInfo :=
  declared (span 0 50) false "foo" (span 6 9) (cnst (span 11 17) "String").

(** The options maps of [constComputedBy value] and [propFactoryDefault]. *)
Definition computedRules (value : Expression) : HashNode :=
  mkHashNode (span 20 40) [sym (span 20 31) "computed_by"] [value].

Definition factoryRules : HashNode :=
  mkHashNode (span 19 50)
    [sym (span 19 26) "factory"; sym (span 30 37) "default"]
    [cnst (span 28 29) "F"; Literal (span 39 40) (LitInteger 1)].

(** The record of [const :foo, String, computed_by: :calc]. *)
Definition calcRecord : PropInfo :=
  set_computedBy (span 33 38) (UTF8 "calc") computedDeclared.

(** The records of [prop :a, A], [prop :b, B, default: 1], [prop :c, C]. *)
Definition recordNamed (s : string) (l : LocOffsets) (default : Expression)
    : PropInfo :=
  {| loc := l; isImmutable := false; name := UTF8 s; nameLoc := l;
     type := cnst l "A"; default_ := default; computedByMethodName := noName;
     computedByMethodNameLoc := l; foreign := nullptr; ifunset := nullptr |}.

Definition recordsABC : list PropInfo :=
  [recordNamed "a" (span 0 10) nullptr;
   recordNamed "b" (span 11 30) (Literal (span 28 29) (LitInteger 1));
   recordNamed "c" (span 31 40) nullptr].

(** A struct-derived class: [class S < T::Struct] with the body given. *)
Definition structClass (rhs : list Expression) : ClassDef :=
  mkClassDef (span 0 100) (cnst (span 6 7) "S")
    [UnresolvedConstantLit (span 10 19) (cnst (span 10 11) "T")
       Names.Constants.Struct]
    rhs.

(** A class body mixing declarations and other statements. *)
Definition mixedBody : list Expression :=
  [cnst (span 0 3) "Foo";
   callStat (span 5 20) Names.const_ [sym (span 11 15) "foo"; cnst (span 17 20) "Foo"];
   propFourArgs;
   callStat (span 40 70) Names.prop
     [sym (span 45 50) "nick"; tNilable (span 52 70) (cnst (span 62 68) "String")];
   Literal (span 80 83) LitNil].


(** ** Further vocabulary *)

(** The six function names the switch of parseProp knows. *)
Definition macroNames : list NameRef :=
  [Names.prop; Names.const_; Names.tokenProp; Names.timestampedTokenProp;
   Names.createdProp; Names.merchantProp].

(** The plain and the immutable declaration, which take name and type as
    arguments. *)
Definition isPlainMacro (f : NameRef) : bool :=
  bool_decide (f = Names.prop) || bool_decide (f = Names.const_).

(** A setter method among the nodes of a class body. *)
Definition isSetter (e : Expression) : bool :=
  match e with mkSet _ _ _ _ => true | _ => false end.

(** A foreign accessor ([name_] or [name_!]) or its sig. *)
Definition isForeignNode (e : Expression) : bool :=
  match e with
  | MK_Sig1 _ _ _ _ | MK_SyntheticMethod1 _ _ _ _ _ => true
  | _ => false
  end.

(** The options map of a call, when it carries one. *)
Definition rulesOf (send : SendNode) : option HashNode :=
  match propRules send with
  | Some rules => rules
  | None => None
  end.

Section OptionsMap.
Context {env : Env}.

(** The private copy of the options map once the step for [default] is
    over: without the [default] entry when that entry was taken out. *)
Definition rulesAfterDefault (ctx : Context) (h : HashNode) : HashNode :=
  if hasTruthyHashValue ctx h Names.factory then h
  else if hasHashValue ctx h Names.default_
  then (extractHashValue ctx h Names.default_).2
  else h.

(** The copy once the step for [computed_by] is over as well. *)
Definition rulesAfterComputedBy (ctx : Context) (h : HashNode) : HashNode :=
  let h := rulesAfterDefault ctx h in
  if hasTruthyHashValue ctx h Names.computedBy
  then (extractHashValue ctx h Names.computedBy).2
  else h.

(** The value the step for [foreign] takes out of the map. *)
Definition foreignValue (ctx : Context) (h : HashNode) : Expression :=
  (extractHashValue ctx (rulesAfterComputedBy ctx h) Names.foreign).1.2.

(** The four nodes of the foreign accessors of a record, the nilable
    accessor returning [type] and the other [nonNilType]. *)
Definition foreignAccessors (ctx : Context) (ret : PropInfo)
    (type nonNilType : Expression) : list Expression :=
  let arg :=
    MK_RestArg (nameLoc ret)
      (MK_KeywordArg (nameLoc ret) (MK_Local (nameLoc ret) Names.opts)) in
  [MK_Sig1 (loc ret) (MK_Symbol (nameLoc ret) Names.opts)
           (MK_Untyped (loc ret)) type;
   MK_SyntheticMethod1 (loc ret) (mkLoc (file ctx) (loc ret))
     (UTF8 (String.append (show (name ret)) "_")) arg
     (MK_RaiseUnimplemented (loc ret));
   MK_Sig1 (loc ret) (MK_Symbol (nameLoc ret) Names.opts)
           (MK_Untyped (loc ret)) nonNilType;
   MK_SyntheticMethod1 (loc ret) (mkLoc (file ctx) (loc ret))
     (UTF8 (String.append (show (name ret)) "_!")) arg
     (MK_RaiseUnimplemented (loc ret))].

End OptionsMap.

(** The parameter the constructor declares for a record: a keyword
    parameter, optional with the default of the record when it has one. *)
Definition paramOf (p : PropInfo) : Expression :=
  if isNull (default_ p) then requiredArg p else optionalArg p.

(** [prop :nick, T.nilable(String), immutable: true] *)
Definition propNickImmutable : SendNode :=
  call (span 0 50) Names.prop
    [sym (span 5 10) "nick"; tNilable (span 12 30) (cnst (span 22 28) "String");
     Hash (span 32 50) [sym (span 32 41) "immutable"]
          [Literal (span 43 47) LitTrue]].

Definition nickOptionsDeclared : PropInfo :=
  declared (span 0 50) false "nick" (span 6 10)
    (tNilable (span 12 30) (cnst (span 22 28) "String")).

Definition nickRules : HashNode :=
  mkHashNode (span 32 50) [sym (span 32 41) "immutable"]
    [Literal (span 43 47) LitTrue].

(** The record parseProp returns for [propNickImmutable]. *)
Definition nickRecord : PropInfo :=
  set_default_ (MK_Nil (span 0 50)) (set_isImmutable true nickOptionsDeclared).

(** A struct whose body is [prop :a, A] followed by [propNickImmutable]. *)
Definition nickStruct : ClassDef :=
  structClass
    [callStat (span 60 70) Names.prop [sym (span 65 67) "a"; cnst (span 69 70) "A"];
     callStat (span 0 50) Names.prop (send_args propNickImmutable)].

(** [attr_reader :foo], a call the pass does not know. *)
Definition attrReaderFoo : SendNode :=
  call (span 0 16) (UTF8 "attr_reader") [sym (span 12 16) "foo"].

(** [prop :foo, String, foreign: value] *)
Definition propForeign (value : Expression) : SendNode :=
  call (span 0 40) Names.prop
    [sym (span 5 9) "foo"; cnst (span 11 17) "String";
     Hash (span 19 40) [sym (span 19 26) "foreign"] [value]].

(** [-> { Foo }] *)
Definition lambdaFoo : Expression :=
  Send (span 28 38) EmptyTree Names.lambda []
       (Block (span 31 38) [] (cnst (span 33 36) "Foo")).

(** [prop :foo, T.nilable(String), default: 1] *)
Definition propNilableDefault : SendNode :=
  call (span 0 50) Names.prop
    [sym (span 5 9) "foo"; tNilable (span 11 28) (cnst (span 21 27) "String");
     Hash (span 30 50) [sym (span 30 37) "default"]
          [Literal (span 39 40) (LitInteger 1)]].

(** [prop :foo, String, ifunset: 0] *)
Definition propIfunset : SendNode :=
  call (span 0 40) Names.prop
    [sym (span 5 9) "foo"; cnst (span 11 17) "String";
     Hash (span 19 40) [sym (span 19 26) "ifunset"]
          [Literal (span 28 29) (LitInteger 0)]].

(** [created_prop] and [merchant_prop] *)
Definition createdProp0 : SendNode := call (span 0 12) Names.createdProp [].
Definition merchantProp0 : SendNode := call (span 0 13) Names.merchantProp [].

(** [RefEnv] in a build without debug checks: [ENFORCE] is switched off. *)
Definition ReleaseEnv : Env :=
  {| debug_mode := false;
     LocOffsets_none := @LocOffsets_none RefEnv;
     dupType := ref_dupType;
     hasHashValue := ref_hasHashValue;
     hasTruthyHashValue := ref_hasTruthyHashValue;
     extractHashValue := ref_extractHashValue;
     thunkBody := ref_thunkBody;
     isProbablySymbol := ref_isProbablySymbol |}.

(** ** The generator of the Proc classes (rbi/tools/generate_procs.cc) *)

Module GenerateProcs.

Definition MAX_PROC_ARITY : Z := 10.

(** An output stream is the text written to it so far.  [put out text] is
    [out << text] for a string literal, [putInt out i] is [out << i] for an
    [int], written in decimal, and [putNl out] is [out << '\n']. *)
Definition nl : string := String "010"%char EmptyString.

Definition put (out : string) (text : string) : string :=
  String.append out text.

Definition putInt (out : string) (i : Z) : string :=
  String.append out (pretty i).

Definition putNl (out : string) : string := String.append out nl.

(** [for (int i = first; i < first + count; ++i) body]: the loops of the
    generator start at 0 and stop below a bound they do not change, so the
    number of rounds is known when the loop is entered. *)
Fixpoint forLoop (count : nat) (i : Z) (body : Z -> string -> string)
    (out : string) : string :=
  match count with
  | O => out
  | S count => forLoop count (i + 1) body (body i out)
  end.

(** [for (int i = 0; i < arity; ++i) body] *)
Definition forBelow (arity : Z) (body : Z -> string -> string)
    (out : string) : string :=
  forLoop (Z.to_nat arity) 0 body out.

Definition emitProc (out : string) (arity : Z) : string :=
  let out := putNl (put (putInt (put out "class Proc") arity) " < Proc") in
  let out := putNl (put out "  Return = type_member(:out)") in
  let out :=
    forBelow arity
      (fun i out =>
         putNl (put (putInt (put out "  Arg") i) " = type_member(:in)"))
      out in
  let out := putNl out in
  let out := putNl (put out "  sig {params(") in
  let out :=
    forBelow arity
      (fun i out =>
         putNl (put (putInt (put (put (putInt (put out "    arg") i) ": ")
                                 "Arg") i) ","))
      out in
  let out := putNl (put out "  )") in
  let out := putNl (put out "  .returns(Return)}") in
  let out := put out "  def call(" in
  let out :=
    forBelow arity
      (fun i out =>
         let out := if negb (i =? 0)%Z then put out ", " else out in
         putInt (put out "arg") i)
      out in
  let out := putNl (put out ")") in
  let out := putNl (put out "  end") in
  let out := putNl out in
  let out := putNl (put out "  alias_method :[], :call") in
  let out := putNl out in
  putNl (putNl (put out "end")).

(** [main]: the text of the file named by the first argument, opened
    truncated, once every arity from 0 to [MAX_PROC_ARITY] is emitted. *)
Definition main : string :=
  forLoop (Z.to_nat (MAX_PROC_ARITY + 1)) 0 (fun arity out => emitProc out arity) "".

(** The indices a loop below [arity] runs through. *)
Definition indices (arity : Z) : list Z :=
  map Z.of_nat (seq 0 (Z.to_nat arity)).

(** The pieces of a generated class, written without loops. *)
Definition joined (texts : list string) : string :=
  fold_right String.append "" texts.

Definition typeMemberLine (i : Z) : string :=
  String.append "  Arg" (String.append (pretty i)
    (String.append " = type_member(:in)" nl)).

Definition sigLine (i : Z) : string :=
  String.append "    arg" (String.append (pretty i) (String.append ": "
    (String.append "Arg" (String.append (pretty i) (String.append "," nl))))).

Definition argName (i : Z) : string := String.append "arg" (pretty i).

Definition procClass (arity : Z) : string :=
  joined
    ["class Proc"; pretty arity; " < Proc"; nl;
     "  Return = type_member(:out)"; nl;
     joined (map typeMemberLine (indices arity));
     nl;
     "  sig {params("; nl;
     joined (map sigLine (indices arity));
     "  )"; nl;
     "  .returns(Return)}"; nl;
     "  def call("; String.concat ", " (map argName (indices arity)); ")"; nl;
     "  end"; nl;
     nl;
     "  alias_method :[], :call"; nl;
     nl;
     "end"; nl; nl].

(** The number of line ends in a text. *)
Fixpoint lineEnds (text : string) : nat :=
  match text with
  | EmptyString => 0
  | String c text =>
      ((if Ascii.eqb c "010"%char then 1 else 0) + lineEnds text)%nat
  end.

End GenerateProcs.

(** ** Properties *)

Section Properties.
Context {env : Env}.

(** *** The outcome monad *)

Lemma bind_Returns {A B : Type} (m : Outcome A) (k : A -> Outcome B) b ops :
  bind m k = Returns b ops ->
  exists a ops1 ops2,
    m = Returns a ops1 /\ k a = Returns b ops2 /\ ops = ops1 ++ ops2.
Proof.
  unfold bind. destruct m as [a ops1|msg]; [|discriminate].
  destruct (k a) as [b' ops2|msg] eqn:Hk; [|discriminate].
  intros [= <- <-]. eauto 6.
Qed.

Lemma bind_pure {A B : Type} (a : A) (k : A -> Outcome B) :
  bind (pure a) k = k a.
Proof. unfold bind, pure. destruct (k a); reflexivity. Qed.

Lemma bind_Returns_l {A B : Type} (a : A) ops (k : A -> Outcome B) b ops' :
  k a = Returns b ops' -> bind (Returns a ops) k = Returns b (ops ++ ops').
Proof. intros Hk. unfold bind. rewrite Hk. reflexivity. Qed.

(** *** The constructor of a struct *)

Lemma foldl_addRequired (props : list PropInfo) (acc : InitParams) :
  foldl addRequired acc props =
  {| args := args acc ++ map requiredArg (requiredProps props);
     sigKeys := sigKeys acc ++ map sigKey (requiredProps props);
     sigVals := sigVals acc ++ map type (requiredProps props) |}.
Proof.
  revert acc. induction props as [|p props IH]; intros acc; simpl.
  - rewrite !app_nil_r. destruct acc; reflexivity.
  - rewrite IH. unfold addRequired, requiredProps. simpl.
    destruct (isNull (default_ p)); simpl; [|reflexivity].
    rewrite <- !app_assoc. reflexivity.
Qed.

Lemma foldl_addOptional (props : list PropInfo) (acc : InitParams) :
  foldl addOptional acc props =
  {| args := args acc ++ map optionalArg (optionalProps props);
     sigKeys := sigKeys acc ++ map sigKey (optionalProps props);
     sigVals := sigVals acc ++ map type (optionalProps props) |}.
Proof.
  revert acc. induction props as [|p props IH]; intros acc; simpl.
  - rewrite !app_nil_r. destruct acc; reflexivity.
  - rewrite IH. unfold addOptional, optionalProps. simpl.
    destruct (isNull (default_ p)); simpl; [reflexivity|].
    rewrite <- !app_assoc. reflexivity.
Qed.

Lemma foldl_addAssign (props : list PropInfo) (stats : list Expression) :
  foldl addAssign stats props = stats ++ map fieldAssign props.
Proof.
  revert stats. induction props as [|p props IH]; intros stats; simpl.
  - rewrite app_nil_r. reflexivity.
  - rewrite IH. unfold addAssign. rewrite <- app_assoc. reflexivity.
Qed.

Lemma initParams_partition (props : list PropInfo) :
  initParams props =
  {| args := map requiredArg (requiredProps props) ++
             map optionalArg (optionalProps props);
     sigKeys := map sigKey (requiredProps props ++ optionalProps props);
     sigVals := map type (requiredProps props ++ optionalProps props) |}.
Proof.
  unfold initParams. rewrite foldl_addRequired, foldl_addOptional. simpl.
  rewrite !map_app. reflexivity.
Qed.

(** C2.  The constructor synthesized for a struct-derived class lists, in
    its sig and in its parameters, first the records without a default in
    declaration order and then the records with a default in declaration
    order; its body assigns the backing field of every record in declaration
    order and ends with the argument-less call of the superclass
    constructor. *)
Theorem mkTStructInitialize_order (ctx : Context) (klassLoc : LocOffsets)
    (props : list PropInfo) :
  mkTStructInitialize ctx klassLoc props =
  [MK_SigVoid klassLoc
     (MK_Hash klassLoc
        (map sigKey (requiredProps props ++ optionalProps props))
        (map type (requiredProps props ++ optionalProps props)));
   MK_SyntheticMethod klassLoc (mkLoc (file ctx) klassLoc) Names.initialize
     (map requiredArg (requiredProps props) ++
      map optionalArg (optionalProps props))
     (MK_InsSeq klassLoc (map fieldAssign props) (MK_ZSuper klassLoc))].
Proof.
  unfold mkTStructInitialize, initBody.
  rewrite initParams_partition, foldl_addAssign. reflexivity.
Qed.

(** The example of the spec: [a] required, [b] optional, [c] required give
    the parameters [a, c, b] and the assignments [a, b, c]. *)
Example mkTStructInitialize_a_c_b :
  exists sig params assigns zsuper,
    mkTStructInitialize refCtx (span 0 100) recordsABC =
      [sig; MK_SyntheticMethod (span 0 100) (mkLoc 0 (span 0 100))
              Names.initialize params
              (MK_InsSeq (span 0 100) assigns zsuper)] /\
    params = [requiredArg (recordNamed "a" (span 0 10) nullptr);
              requiredArg (recordNamed "c" (span 31 40) nullptr);
              optionalArg (recordNamed "b" (span 11 30)
                             (Literal (span 28 29) (LitInteger 1)))] /\
    assigns = map fieldAssign recordsABC /\
    zsuper = MK_ZSuper (span 0 100).
Proof. repeat eexists. Qed.

(** *** Autogeneration mode *)

(** C9.  In signature-autogeneration mode the pass returns the class as it
    was given, its statement list untouched whatever it declares, and it
    does not touch the error sink. *)
Theorem run_autogen_unchanged (ctx : Context) (klass : ClassDef) :
  runningUnderAutogen ctx = true ->
  run ctx klass = Returns klass [].
Proof. intros Hauto. unfold run. rewrite Hauto. reflexivity. Qed.

(** *** The synthesized nodes of one declaration *)

Lemma processGetter_nodes (ret : PropInfo) (forTStruct : bool) :
  processGetter ret forTStruct =
  [MK_Sig (loc ret) (MK_Hash0 (loc ret)) (dupType (dupType (type ret)));
   mkGet (loc ret) (name ret)
     (if exists_ (computedByMethodName ret) then computedGetterBody ret
      else if isNull (ifunset ret) && forTStruct
           then MK_Instance (nameLoc ret) (addAt (name ret))
           else MK_RaiseUnimplemented (loc ret))].
Proof.
  unfold processGetter, computedGetterBody.
  destruct (exists_ (computedByMethodName ret)); [reflexivity|].
  destruct (isNull (ifunset ret) && forTStruct); reflexivity.
Qed.

Lemma processSetter_nodes (ret : PropInfo) :
  processSetter ret =
  if isImmutable ret then [] else [setterSig ret; setterDef ret].
Proof. unfold processSetter. destruct (isImmutable ret); reflexivity. Qed.

Lemma processForeign_nodes (ctx : Context) (ret : PropInfo) (e : Expression) :
  In e (processForeign ctx ret) ->
  match e with
  | MK_Sig1 _ _ _ _ | MK_SyntheticMethod1 _ _ _ _ _ => True
  | _ => False
  end.
Proof.
  unfold processForeign. destruct (isNull (foreign ret)); simpl; [tauto|].
  destruct (isNull (dupType (foreign ret))); simpl;
    intros [<-|[<-|[<-|[<-|[]]]]]; exact I.
Qed.

Lemma processMutator_nodes (ctx : Context) (ret : PropInfo) :
  if isCollectionType ctx ret
  then exists m, processMutator ctx ret = [mutatorClass ctx ret m]
  else processMutator ctx ret = [].
Proof.
  unfold isCollectionType, processMutator, mutatorClass, setterSig, setterDef.
  destruct (isProbablySymbol ctx (type ret) Symbols.Hash); simpl.
  - destruct (type ret); try (eexists; reflexivity).
    repeat (match goal with
            | |- context [match ?l with [] => _ | _ :: _ => _ end] => destruct l
            end; try (eexists; reflexivity)).
    destruct (bool_decide (_ = Names.squareBrackets)); eexists; reflexivity.
  - destruct (isProbablySymbol ctx (type ret) Symbols.Array); simpl; [|reflexivity].
    destruct (type ret); try (eexists; reflexivity).
    repeat (match goal with
            | |- context [match ?l with [] => _ | _ :: _ => _ end] => destruct l
            end; try (eexists; reflexivity)).
    destruct (bool_decide (_ = Names.squareBrackets)); eexists; reflexivity.
Qed.

Lemma processProp_parts (ctx : Context) (ret : PropInfo) (forTStruct : bool) :
  processProp ctx ret forTStruct =
  processGetter ret forTStruct ++ processSetter ret ++
  processForeign ctx ret ++ processMutator ctx ret.
Proof. unfold processProp. rewrite <- !app_assoc. reflexivity. Qed.

(** C4.  The getter follows its sig as second node of the replacement
    sequence, and its body is chosen by priority: with a computed-by method,
    the call of that class method on [self.class] with [T.unsafe(nil)],
    asserted to have the cloned declared type, followed by the unimplemented
    placeholder; otherwise, with no if-unset value in a struct-derived
    class, the read of the backing instance field; otherwise the
    unimplemented placeholder. *)
Theorem processProp_getter_body (ctx : Context) (ret : PropInfo)
    (forTStruct : bool) :
  let getter := processProp ctx ret forTStruct !! 1%nat in
  (exists_ (computedByMethodName ret) = true ->
     getter = Some (mkGet (loc ret) (name ret) (computedGetterBody ret))) /\
  (exists_ (computedByMethodName ret) = false ->
   isNull (ifunset ret) = true -> forTStruct = true ->
     getter = Some (mkGet (loc ret) (name ret)
                      (MK_Instance (nameLoc ret) (addAt (name ret))))) /\
  (exists_ (computedByMethodName ret) = false ->
   isNull (ifunset ret) = false \/ forTStruct = false ->
     getter = Some (mkGet (loc ret) (name ret)
                      (MK_RaiseUnimplemented (loc ret)))).
Proof.
  rewrite processProp_parts, processGetter_nodes. simpl.
  split; [|split].
  - intros ->. reflexivity.
  - intros -> -> ->. reflexivity.
  - intros -> [-> | ->]; [reflexivity|].
    rewrite andb_false_r. reflexivity.
Qed.

(** C1, as amended.  The class-level sig and setter are among the nodes
    exactly when the declaration is not immutable, and they then follow the
    getter as third and fourth node.  A nested [Mutator] class is among the
    nodes exactly when the declared type is probably one of the two
    collection types; it then comes last and holds the sig and setter
    whether or not the declaration is immutable, followed by the sig and
    getter of the collection accessor.  For any other type, a user-defined
    constant included, there is no mutator class. *)
Theorem processProp_mutator_class (ctx : Context) (ret : PropInfo)
    (forTStruct : bool) :
  let nodes := processProp ctx ret forTStruct in
  (In (setterSig ret) nodes <-> isImmutable ret = false) /\
  (In (setterDef ret) nodes <-> isImmutable ret = false) /\
  (isImmutable ret = false ->
     nodes !! 2%nat = Some (setterSig ret) /\
     nodes !! 3%nat = Some (setterDef ret)) /\
  existsb isMutatorClass nodes = isCollectionType ctx ret /\
  (isCollectionType ctx ret = true ->
     exists m, list.last nodes = Some (mutatorClass ctx ret m)).
Proof.
  cbv zeta. rewrite processProp_parts, processGetter_nodes, processSetter_nodes.
  pose proof (processMutator_nodes ctx ret) as Hmut.
  pose proof (processForeign_nodes ctx ret) as Hfor.
  assert (forall e, e = setterSig ret \/ e = setterDef ret ->
            isImmutable ret = true ->
            ~ In e ([MK_Sig (loc ret) (MK_Hash0 (loc ret))
                       (dupType (dupType (type ret)));
                     mkGet (loc ret) (name ret)
                       (if exists_ (computedByMethodName ret)
                        then computedGetterBody ret
                        else if isNull (ifunset ret) && forTStruct
                             then MK_Instance (nameLoc ret) (addAt (name ret))
                             else MK_RaiseUnimplemented (loc ret))] ++
                    [] ++ processForeign ctx ret ++ processMutator ctx ret))
    as Hnone.
  { intros e He Himm Hin. simpl in Hin.
    destruct Hin as [Hin|[Hin|Hin]].
    - destruct He as [-> | ->]; discriminate.
    - destruct He as [-> | ->]; discriminate.
    - apply in_app_or in Hin. destruct Hin as [Hin|Hin].
      + apply Hfor in Hin. destruct He as [-> | ->]; exact Hin.
      + destruct (isCollectionType ctx ret).
        * destruct Hmut as [m Hm]. rewrite Hm in Hin.
          destruct Hin as [Hin|[]]. destruct He as [-> | ->]; discriminate.
        * rewrite Hmut in Hin. destruct Hin. }
  split; [|split; [|split; [|split]]].
  - split.
    + intros Hin. destruct (isImmutable ret) eqn:Himm; [|reflexivity].
      exfalso. exact (Hnone _ (or_introl eq_refl) eq_refl Hin).
    + intros ->. simpl. tauto.
  - split.
    + intros Hin. destruct (isImmutable ret) eqn:Himm; [|reflexivity].
      exfalso. exact (Hnone _ (or_intror eq_refl) eq_refl Hin).
    + intros ->. simpl. tauto.
  - intros ->. split; reflexivity.
  - rewrite !existsb_app.
    assert (existsb isMutatorClass (processForeign ctx ret) = false) as ->.
    { apply not_true_is_false. intros Hex.
      apply existsb_exists in Hex. destruct Hex as (e & Hin & He).
      apply Hfor in Hin. destruct e; try contradiction; discriminate. }
    assert (existsb isMutatorClass
              (if isImmutable ret then [] else [setterSig ret; setterDef ret])
            = false) as -> by (destruct (isImmutable ret); reflexivity).
    simpl. destruct (isCollectionType ctx ret).
    + destruct Hmut as [m ->]. reflexivity.
    + rewrite Hmut. reflexivity.
  - intros Hcoll. rewrite Hcoll in Hmut. destruct Hmut as [m ->].
    exists m. rewrite !app_assoc. apply last_snoc.
Qed.

(** *** Classification *)

Lemma sameDeclaration_refl (p : PropInfo) : sameDeclaration p p.
Proof. repeat split. Qed.

Lemma sameDeclaration_trans (p q r : PropInfo) :
  sameDeclaration p q -> sameDeclaration q r -> sameDeclaration p r.
Proof.
  unfold sameDeclaration. intros (?&?&?&?) (?&?&?&?).
  repeat split; congruence.
Qed.

Lemma ENFORCE_Returns (condition : bool) (message : string) u ops :
  ENFORCE condition message = Returns u ops -> ops = [].
Proof.
  unfold ENFORCE. destruct (debug_mode && negb condition); [discriminate|].
  intros [= _ <-]. reflexivity.
Qed.

Lemma selectMacro_fields (send : SendNode) (ret0 ret : PropInfo) :
  selectMacro send ret0 = Some ret ->
  loc ret = loc ret0 /\ default_ ret = default_ ret0 /\
  computedByMethodName ret = computedByMethodName ret0.
Proof.
  unfold selectMacro.
  repeat (match goal with
          | |- context [if ?b then _ else _] => destruct b
          end; try (intros [= <-]; repeat split)).
Qed.

Lemma propName_fields (ctx : Context) (send : SendNode) (ret0 ret : PropInfo) ops :
  propName ctx send ret0 = Returns (Some ret) ops ->
  ops = [] /\ loc ret = loc ret0 /\ type ret = type ret0 /\
  default_ ret = default_ ret0 /\
  computedByMethodName ret = computedByMethodName ret0 /\
  (exists_ (name ret0) = true -> name ret = name ret0).
Proof.
  unfold propName. destruct (exists_ (name ret0)); simpl.
  - intros [= <- <-]. repeat split.
  - destruct (empty_ (send_args send)); [discriminate|].
    destruct (symbolLit _) as [[symLoc symName]|]; [|discriminate].
    intros Hb. apply bind_Returns in Hb.
    destruct Hb as (u & ops1 & ops2 & He & [= <- <-] & ->).
    apply ENFORCE_Returns in He. subst ops1.
    repeat split. discriminate.
Qed.

Lemma propType_fields (send : SendNode) (ret0 ret : PropInfo) ops :
  propType send ret0 = Returns (Some ret) ops ->
  ops = [] /\ loc ret = loc ret0 /\ name ret = name ret0 /\
  default_ ret = default_ ret0 /\
  computedByMethodName ret = computedByMethodName ret0 /\
  isNull (type ret) = false /\
  (isNull (type ret0) = false -> type ret = type ret0).
Proof.
  unfold propType.
  destruct (isNull (type ret0)) eqn:Hnull.
  - destruct (length (send_args send) =? 1)%nat; [discriminate|].
    destruct (isNull (type (set_type _ ret0))) eqn:Hdup; [discriminate|].
    intros Hb. apply bind_Returns in Hb.
    destruct Hb as (u & ops1 & ops2 & He & [= <- <-] & ->).
    apply ENFORCE_Returns in He. subst ops1.
    repeat split; [exact Hdup|discriminate].
  - intros Hb. apply bind_Returns in Hb.
    destruct Hb as (u & ops1 & ops2 & He & [= <- <-] & ->).
    apply ENFORCE_Returns in He. subst ops1.
    repeat split. exact Hnull.
Qed.

(** Classification never touches the error sink. *)
Lemma classify_silent (ctx : Context) (send : SendNode) r ops :
  classify ctx send = Returns r ops -> ops = [].
Proof.
  unfold classify.
  destruct (selectMacro send _) as [ret0|]; [|intros [= _ <-]; reflexivity].
  destruct (4 <=? length (send_args send))%nat; [intros [= _ <-]; reflexivity|].
  intros Hb. apply bind_Returns in Hb.
  destruct Hb as ([ret1|] & ops1 & ops2 & Hname & Hrest & ->).
  - apply propName_fields in Hname. destruct Hname as (-> & _).
    apply bind_Returns in Hrest.
    destruct Hrest as ([ret2|] & ops3 & ops4 & Htype & Hrest & ->).
    + apply propType_fields in Htype. destruct Htype as (-> & _).
      destruct (propRules send); injection Hrest as _ <-; reflexivity.
    + injection Hrest as _ <-. simpl. rewrite app_nil_r.
      unfold propType in Htype.
      destruct (if isNull (type ret1) then _ else _) as [ret2|].
      * apply bind_Returns in Htype.
        destruct Htype as (u & ops5 & ops6 & He & Hp & ->). discriminate.
      * injection Htype as <-. reflexivity.
  - injection Hrest as _ <-. rewrite app_nil_r.
    unfold propName in Hname.
    destruct (exists_ (name ret0)); simpl in Hname.
    + injection Hname as _ <-. reflexivity.
    + destruct (empty_ (send_args send)); [injection Hname as <-; reflexivity|].
      destruct (symbolLit _) as [[symLoc symName]|];
        [|injection Hname as <-; reflexivity].
      apply bind_Returns in Hname.
      destruct Hname as (u & ops5 & ops6 & He & Hp & ->). discriminate.
Qed.

(** What an accepted call has established before its options are read. *)
Lemma classify_accepts (ctx : Context) (send : SendNode) ret rules ops :
  classify ctx send = Returns (Some (ret, rules)) ops ->
  loc ret = send_loc send /\ default_ ret = nullptr /\
  computedByMethodName ret = noName /\ isNull (type ret) = false /\
  propRules send = Some rules /\ (length (send_args send) < 4)%nat.
Proof.
  unfold classify.
  destruct (selectMacro send _) as [ret0|] eqn:Hsel; [|discriminate].
  destruct (4 <=? length (send_args send))%nat eqn:Hlen; [discriminate|].
  apply Nat.leb_gt in Hlen.
  intros Hb. apply bind_Returns in Hb.
  destruct Hb as ([ret1|] & ops1 & ops2 & Hname & Hrest & ->); [|discriminate].
  apply bind_Returns in Hrest.
  destruct Hrest as ([ret2|] & ops3 & ops4 & Htype & Hrest & ->); [|discriminate].
  destruct (propRules send) as [rules'|]; [|discriminate].
  injection Hrest as <- <- <-.
  apply selectMacro_fields in Hsel. simpl in Hsel.
  apply propName_fields in Hname. apply propType_fields in Htype.
  destruct Hsel as (? & ? & ?). destruct Hname as (_ & ? & ? & ? & ? & _).
  destruct Htype as (_ & ? & ? & ? & ? & ? & _).
  repeat split; [congruence..|assumption|exact Hlen].
Qed.

(** *** The options map *)

Lemma rulesDefault_same (ctx : Context) (rules : HashNode) (ret : PropInfo) :
  sameDeclaration ret (rulesDefault ctx rules ret).1 /\
  computedByMethodName (rulesDefault ctx rules ret).1 = computedByMethodName ret.
Proof.
  unfold rulesDefault.
  destruct (hasTruthyHashValue ctx rules Names.immutable);
    (destruct (hasTruthyHashValue ctx rules Names.factory);
     [|destruct (hasHashValue ctx rules Names.default_);
       [destruct (extractHashValue ctx rules Names.default_) as [[k v] r]|]]);
    repeat split.
Qed.

Lemma rulesDefault_factory (ctx : Context) (rules : HashNode) (ret : PropInfo) :
  hasTruthyHashValue ctx rules Names.factory = true ->
  default_ (rulesDefault ctx rules ret).1 = MK_RaiseUnimplemented (loc ret) /\
  (rulesDefault ctx rules ret).2 = rules.
Proof.
  intros Hf. unfold rulesDefault. rewrite Hf.
  destruct (hasTruthyHashValue ctx rules Names.immutable); split; reflexivity.
Qed.

Lemma rulesDefault_absent (ctx : Context) (rules : HashNode) (ret : PropInfo) :
  hasTruthyHashValue ctx rules Names.factory = false ->
  hasHashValue ctx rules Names.default_ = false ->
  default_ (rulesDefault ctx rules ret).1 = default_ ret /\
  (rulesDefault ctx rules ret).2 = rules.
Proof.
  intros Hf Hd. unfold rulesDefault. rewrite Hf, Hd.
  destruct (hasTruthyHashValue ctx rules Names.immutable); split; reflexivity.
Qed.

Lemma rulesComputedBy_returns (ctx : Context) (rules : HashNode) (ret : PropInfo) :
  exists ret' rules' ops,
    rulesComputedBy ctx rules ret = Returns (ret', rules') ops /\
    sameDeclaration ret ret' /\ default_ ret' = default_ ret.
Proof.
  unfold rulesComputedBy.
  destruct (hasTruthyHashValue ctx rules Names.computedBy).
  - destruct (extractHashValue ctx rules Names.computedBy) as [[k v] r].
    destruct (symbolLit v) as [[litLoc litName]|];
      do 3 eexists; (split; [reflexivity|repeat split]).
  - do 3 eexists. split; [reflexivity|repeat split].
Qed.

(** A truthy [computed_by] whose value is no symbol literal: the sink is
    asked for a diagnostic at the value, and the record is left as it was. *)
Lemma rulesComputedBy_malformed (ctx : Context) (rules : HashNode)
    (ret : PropInfo) key val rules' :
  hasTruthyHashValue ctx rules Names.computedBy = true ->
  extractHashValue ctx rules Names.computedBy = ((key, val), rules') ->
  symbolLit val = None ->
  rulesComputedBy ctx rules ret =
    Returns (ret, rules')
      (BeginError (exprLoc val) ComputedBySymbol ::
       if errorGranted ctx (exprLoc val) ComputedBySymbol
       then [SetHeader "Value for `{}` must be a symbol literal" "computed_by"]
       else []).
Proof.
  intros Ht He Hs. unfold rulesComputedBy. rewrite Ht, He, Hs.
  unfold beginError, tell, bind, pure. rewrite app_nil_r. reflexivity.
Qed.

Lemma rulesComputedBy_falsy (ctx : Context) (rules : HashNode) (ret : PropInfo) :
  hasTruthyHashValue ctx rules Names.computedBy = false ->
  rulesComputedBy ctx rules ret = Returns (ret, rules) [].
Proof. intros Ht. unfold rulesComputedBy. rewrite Ht. reflexivity. Qed.

Lemma rulesForeign_returns (ctx : Context) (rules : HashNode) (ret : PropInfo) :
  exists ret' rules' ops,
    rulesForeign ctx rules ret = Returns (ret', rules') ops /\
    sameDeclaration ret ret' /\ default_ ret' = default_ ret /\
    computedByMethodName ret' = computedByMethodName ret /\
    forall l, ~ In (BeginError l ComputedBySymbol) ops.
Proof.
  unfold rulesForeign.
  destruct (extractHashValue ctx rules Names.foreign) as [[fk foreignTree] r].
  destruct (isNull foreignTree); simpl.
  - do 3 eexists. split; [reflexivity|]. repeat split. intros l [].
  - destruct (isNull (thunkBody ctx foreignTree)); simpl.
    + do 3 eexists. split; [reflexivity|]. repeat split.
      intros l [Hin|Hin]; [discriminate|].
      rewrite app_nil_r in Hin.
      destruct (errorGranted ctx (exprLoc foreignTree) PropForeignStrict);
        simpl in Hin; intuition discriminate.
    + do 3 eexists. split; [reflexivity|]. repeat split. intros l [].
Qed.

Lemma rulesIfunset_same (ctx : Context) (rules : HashNode) (ret : PropInfo) :
  sameDeclaration ret (rulesIfunset ctx rules ret) /\
  default_ (rulesIfunset ctx rules ret) = default_ ret /\
  computedByMethodName (rulesIfunset ctx rules ret) = computedByMethodName ret.
Proof.
  unfold rulesIfunset.
  destruct (extractHashValue ctx rules Names.ifunset) as [[k v] r].
  destruct (isNull v); repeat split.
Qed.

Lemma nilableDefault_same (ret : PropInfo) :
  sameDeclaration ret (nilableDefault ret) /\
  computedByMethodName (nilableDefault ret) = computedByMethodName ret.
Proof.
  unfold nilableDefault.
  destruct (isNull (default_ ret) && isTNilable (type ret)); repeat split.
Qed.

(** Reading the options never stops the pass; it fixes the default in its
    first step and the computed-by method in its second. *)
Lemma parseRules_returns (ctx : Context) (rules : HashNode) (ret : PropInfo) :
  exists retc rulesc opsc ret' opsf,
    rulesComputedBy ctx (rulesDefault ctx rules ret).2
                    (rulesDefault ctx rules ret).1
      = Returns (retc, rulesc) opsc /\
    parseRules ctx rules ret = Returns ret' (opsc ++ opsf) /\
    sameDeclaration ret ret' /\
    default_ ret' = default_ (rulesDefault ctx rules ret).1 /\
    computedByMethodName ret' = computedByMethodName retc /\
    forall l, ~ In (BeginError l ComputedBySymbol) opsf.
Proof.
  unfold parseRules.
  pose proof (rulesDefault_same ctx rules ret) as [Hd _].
  destruct (rulesDefault ctx rules ret) as [retd rulesd]. simpl in *.
  destruct (rulesComputedBy_returns ctx rulesd retd)
    as (retc & rulesc & opsc & Hc & Hsc & Hdc).
  destruct (rulesForeign_returns ctx rulesc retc)
    as (retf & rulesf & opsf & Hf & Hsf & Hdf & Hcf & Hopsf).
  pose proof (rulesIfunset_same ctx rulesf retf) as (Hsi & Hdi & Hci).
  exists retc, rulesc, opsc, (rulesIfunset ctx rulesf retf), opsf.
  split; [exact Hc|]. split.
  - rewrite Hc. unfold bind at 1. rewrite Hf. unfold bind, pure.
    rewrite app_nil_r. reflexivity.
  - split; [|split; [congruence|split; [congruence|exact Hopsf]]].
    eauto using sameDeclaration_trans.
Qed.

Lemma parseProp_rejected (ctx : Context) (send : SendNode) ops :
  classify ctx send = Returns None ops -> parseProp ctx send = Returns None [].
Proof.
  intros Hc. pose proof (classify_silent _ _ _ _ Hc) as ->.
  unfold parseProp. rewrite Hc. reflexivity.
Qed.

Lemma parseProp_accepted (ctx : Context) (send : SendNode) ret rules ops :
  classify ctx send = Returns (Some (ret, rules)) ops ->
  parseProp ctx send =
    match rules with
    | Some rules =>
        ret' <- parseRules ctx rules ret ;; pure (Some (nilableDefault ret'))
    | None => pure (Some (nilableDefault ret))
    end.
Proof.
  intros Hc. pose proof (classify_silent _ _ _ _ Hc) as ->.
  unfold parseProp. rewrite Hc. fold (pure (Some (ret, rules))).
  rewrite bind_pure. destruct rules; reflexivity.
Qed.

(** C10.  When the options map holds a truthy [factory] entry, the
    default of the record is the unimplemented placeholder at the location
    of the call, whatever the map holds under [default]: the [default] entry
    is not even taken out of the map. *)
Theorem parseProp_factory_over_default (ctx : Context) (send : SendNode)
    (ret0 : PropInfo) (rules : HashNode) (ops0 : list SinkOp) :
  classify ctx send = Returns (Some (ret0, Some rules)) ops0 ->
  hasTruthyHashValue ctx rules Names.factory = true ->
  hasHashValue ctx rules Names.default_ = true ->
  exists ret ops,
    parseProp ctx send = Returns (Some ret) ops /\
    default_ ret = MK_RaiseUnimplemented (send_loc send) /\
    (rulesDefault ctx rules ret0).2 = rules.
Proof.
  intros Hc Hf _.
  rewrite (parseProp_accepted _ _ _ _ _ Hc).
  apply classify_accepts in Hc. destruct Hc as (Hloc & _).
  destruct (parseRules_returns ctx rules ret0)
    as (retc & rulesc & opsc & ret' & opsf & _ & Hp & Hs & Hd & _).
  destruct (rulesDefault_factory ctx rules ret0 Hf) as [Hdef Hkeep].
  exists (nilableDefault ret'), ((opsc ++ opsf) ++ []).
  split; [rewrite Hp; reflexivity|]. split; [|exact Hkeep].
  unfold nilableDefault. rewrite Hd, Hdef. simpl. rewrite Hd, Hdef.
  congruence.
Qed.

(** C8, as amended.  On a recognised declaration with an options map,
    classification succeeds whatever the map holds under [computed_by].
    When that entry is truthy and its value is not a symbol literal, the
    sink is asked for a ComputedBySymbol diagnostic at the value (and given
    its message when it grants one) and the computed-by field stays unset.
    When the entry is not truthy, the field stays unset as well and no such
    diagnostic is asked for. *)
Theorem parseProp_computedBy_malformed (ctx : Context) (send : SendNode)
    (ret0 : PropInfo) (rules : HashNode) (ops0 : list SinkOp) :
  classify ctx send = Returns (Some (ret0, Some rules)) ops0 ->
  let rulesd := (rulesDefault ctx rules ret0).2 in
  exists ret ops,
    parseProp ctx send = Returns (Some ret) ops /\
    (hasTruthyHashValue ctx rulesd Names.computedBy = true ->
     forall key val rules',
       extractHashValue ctx rulesd Names.computedBy = ((key, val), rules') ->
       symbolLit val = None ->
       computedByMethodName ret = noName /\
       In (BeginError (exprLoc val) ComputedBySymbol) ops /\
       (errorGranted ctx (exprLoc val) ComputedBySymbol = true ->
        In (SetHeader "Value for `{}` must be a symbol literal" "computed_by")
           ops)) /\
    (hasTruthyHashValue ctx rulesd Names.computedBy = false ->
     computedByMethodName ret = noName /\
     forall l, ~ In (BeginError l ComputedBySymbol) ops).
Proof.
  intros Hc rulesd.
  rewrite (parseProp_accepted _ _ _ _ _ Hc).
  apply classify_accepts in Hc. destruct Hc as (_ & _ & Hcb0 & _).
  destruct (parseRules_returns ctx rules ret0)
    as (retc & rulesc & opsc & ret' & opsf & Hcomp & Hp & _ & _ & Hcb & Hopsf).
  pose proof (rulesDefault_same ctx rules ret0) as [_ Hcbd].
  pose proof (nilableDefault_same ret') as [_ Hcbn].
  fold rulesd in Hcomp.
  exists (nilableDefault ret'), ((opsc ++ opsf) ++ []).
  split; [rewrite Hp; reflexivity|]. rewrite app_nil_r. split.
  - intros Ht key val rules' He Hs.
    rewrite (rulesComputedBy_malformed _ _ _ _ _ _ Ht He Hs) in Hcomp.
    injection Hcomp as <- <- <-.
    split; [congruence|]. split; [left; reflexivity|].
    intros Hg. rewrite Hg. right. left. reflexivity.
  - intros Ht. rewrite (rulesComputedBy_falsy _ _ _ Ht) in Hcomp.
    injection Hcomp as <- <- <-.
    split; [congruence|]. intros l Hin. exact (Hopsf l Hin).
Qed.

(** What the switch of parseProp sets for the two token aliases. *)
Lemma selectMacro_token (send : SendNode) (ret0 : PropInfo) :
  isTokenAlias (send_fun send) = true ->
  exists ret, selectMacro send ret0 = Some ret /\
    name ret = Names.token /\
    type ret = MK_Constant (send_loc send) Symbols.String.
Proof.
  unfold isTokenAlias, selectMacro. intros Halias.
  apply orb_true_iff in Halias.
  destruct Halias as [Hf|Hf]; apply bool_decide_eq_true in Hf; rewrite Hf;
    eexists; (split; [reflexivity|split; reflexivity]).
Qed.

(** C6, as amended.  A call through either token alias is rejected exactly
    when it has four or more positional arguments, or three or more whose
    last is not a map literal; a name argument is neither needed nor a
    reason to reject.  Whenever the call is accepted, the record is named
    [token] and typed as the string type, whichever alias was used. *)
Theorem parseProp_token_alias (ctx : Context) (send : SendNode) :
  isTokenAlias (send_fun send) = true ->
  debug_mode && isNull (dupType (MK_Constant (send_loc send) Symbols.String))
    = false ->
  exists r ops,
    parseProp ctx send = Returns r ops /\
    (r = None <->
       (4 <= length (send_args send))%nat \/
       ((3 <= length (send_args send))%nat /\
        cast_Hash (back (send_args send)) = None)) /\
    forall ret, r = Some ret ->
      name ret = Names.token /\
      type ret = MK_Constant (send_loc send) Symbols.String.
Proof.
  intros Halias Henf.
  destruct (selectMacro_token send (PropInfo_new (send_loc send)) Halias)
    as (ret1 & Hsel & Hname & Htype).
  assert (propName ctx send ret1 = Returns (Some ret1) []) as Hpn.
  { unfold propName. rewrite Hname. reflexivity. }
  assert (propType send ret1 = Returns (Some ret1) []) as Hpt.
  { unfold propType, ENFORCE. rewrite Htype. simpl.
    rewrite negb_involutive, Htype, Henf. reflexivity. }
  assert (classify ctx send =
          if (4 <=? length (send_args send))%nat then pure None
          else match propRules send with
               | None => pure None
               | Some rules => pure (Some (ret1, rules))
               end) as Hcl.
  { unfold classify. rewrite Hsel.
    destruct (4 <=? length (send_args send))%nat; [reflexivity|].
    rewrite Hpn. fold (pure (Some ret1)). rewrite bind_pure.
    rewrite Hpt. fold (pure (Some ret1)). rewrite bind_pure. reflexivity. }
  destruct (4 <=? length (send_args send))%nat eqn:Hlen4.
  { apply Nat.leb_le in Hlen4.
    exists None, []. split; [apply (parseProp_rejected _ _ [] Hcl)|].
    split; [tauto|discriminate]. }
  apply Nat.leb_gt in Hlen4.
  assert (propRules send = None <->
          (3 <= length (send_args send))%nat /\
          cast_Hash (back (send_args send)) = None) as Hrules.
  { unfold propRules, deepCopy.
    destruct (3 <=? length (send_args send))%nat eqn:Hlen3;
      [apply Nat.leb_le in Hlen3|apply Nat.leb_gt in Hlen3].
    - destruct (empty_ (send_args send)) eqn:Hempty.
      + destruct (send_args send); [|discriminate]. simpl in Hlen3. lia.
      + simpl. destruct (cast_Hash (back (send_args send))) as [h|]; simpl.
        * split; [discriminate|intros [_ Habs]; discriminate].
        * split; [intros _; split; [exact Hlen3|reflexivity]|reflexivity].
    - rewrite andb_false_r. split; [discriminate|]. lia. }
  destruct (propRules send) as [rules|] eqn:Hpr.
  - rewrite (parseProp_accepted _ _ _ _ [] Hcl).
    assert (exists ret' ops,
              match rules with
              | Some rules =>
                  ret' <- parseRules ctx rules ret1 ;;
                  pure (Some (nilableDefault ret'))
              | None => pure (Some (nilableDefault ret1))
              end = Returns (Some (nilableDefault ret')) ops /\
              sameDeclaration ret1 ret') as (ret' & ops & -> & Hs).
    { destruct rules as [h|].
      - destruct (parseRules_returns ctx h ret1)
          as (retc & rulesc & opsc & ret' & opsf & _ & Hp & Hs & _).
        exists ret', ((opsc ++ opsf) ++ []). rewrite Hp. split; [reflexivity|exact Hs].
      - exists ret1, []. split; [reflexivity|apply sameDeclaration_refl]. }
    exists (Some (nilableDefault ret')), ops. split; [reflexivity|]. split.
    + split; [discriminate|].
      intros [Hge|Hno]; [lia|]. apply Hrules in Hno. discriminate.
    + intros ret [= <-].
      pose proof (nilableDefault_same ret') as [Hn _].
      destruct (sameDeclaration_trans _ _ _ Hs Hn) as (_ & Hnm & _ & Hty).
      split; congruence.
  - exists None, []. split; [apply (parseProp_rejected _ _ [] Hcl)|].
    split; [|discriminate].
    split; [intros _; right; apply Hrules; reflexivity|reflexivity].
Qed.

(** *** The class body *)

Lemma processProp_nonempty (ctx : Context) (ret : PropInfo) (forTStruct : bool) :
  empty_ (processProp ctx ret forTStruct) = false.
Proof. rewrite processProp_parts, processGetter_nodes. reflexivity. Qed.

(** One step of the scan, for a statement whose classification runs to
    its end. *)
Lemma scanStat_spec (ctx : Context) (forTStruct : bool) (acc : Scan)
    (addr : nat) (stat : Expression) :
  classifies ctx stat = true ->
  scanStat ctx forTStruct acc addr stat =
    Returns
      match recordOf ctx stat with
      | Some propInfo =>
          {| replaceNodes :=
               <[addr := processProp ctx propInfo forTStruct]> (replaceNodes acc);
             props := props acc ++ [propInfo] |}
      | None => acc
      end
      (statOps ctx stat).
Proof.
  unfold classifies, scanStat, recordOf, statOps.
  destruct (cast_Send stat) as [send|]; [|reflexivity].
  destruct (parseProp ctx send) as [[propInfo|] ops|msg]; [| |discriminate];
    intros _; unfold bind, ENFORCE, pure, emitted; cbn beta iota.
  - rewrite processProp_nonempty, andb_false_r. cbn beta iota.
    rewrite !app_nil_r. reflexivity.
  - rewrite app_nil_r. reflexivity.
Qed.

Lemma scan_spec (ctx : Context) (forTStruct : bool) (stats : list Expression) :
  forall (addr : nat) (acc : Scan),
  forallb (classifies ctx) stats = true ->
  exists acc',
    scan ctx forTStruct addr stats acc =
      Returns acc' (concat (map (statOps ctx) stats)) /\
    props acc' = props acc ++ omap (recordOf ctx) stats /\
    (forall i, (i < addr)%nat ->
       replaceNodes acc' !! i = replaceNodes acc !! i) /\
    (forall k stat, stats !! k = Some stat ->
       replaceNodes acc' !! (addr + k)%nat =
         match storedReplacement ctx forTStruct stat with
         | Some newNodes => Some newNodes
         | None => replaceNodes acc !! (addr + k)%nat
         end).
Proof.
  induction stats as [|stat stats IH]; intros addr acc Hall.
  - exists acc. simpl. rewrite app_nil_r. repeat split. intros k stat [=].
  - simpl in Hall. apply andb_true_iff in Hall. destruct Hall as [Hstat Hall].
    pose proof (scanStat_spec ctx forTStruct acc addr stat Hstat) as Hstep.
    set (acc1 := match recordOf ctx stat with
                 | Some propInfo => _ | None => acc end) in Hstep.
    destruct (IH (S addr) acc1 Hall) as (acc' & Hscan & Hprops & Hlow & Hat).
    assert (forall i, i <> addr ->
              replaceNodes acc1 !! i = replaceNodes acc !! i) as Hother.
    { intros i Hi. unfold acc1. destruct (recordOf ctx stat); [|reflexivity].
      simpl. apply lookup_insert_ne. congruence. }
    exists acc'. split; [|split; [|split]].
    + simpl. rewrite Hstep. apply bind_Returns_l. exact Hscan.
    + rewrite Hprops. simpl. unfold acc1.
      destruct (recordOf ctx stat); simpl; [|reflexivity].
      rewrite <- app_assoc. reflexivity.
    + intros i Hi. rewrite Hlow by lia. apply Hother. lia.
    + intros [|k] stat' Hk.
      * injection Hk as <-. rewrite Nat.add_0_r, Hlow by lia.
        unfold storedReplacement, acc1.
        destruct (recordOf ctx stat); [|reflexivity].
        simpl. apply lookup_insert_eq.
      * simpl in Hk. replace (addr + S k)%nat with (S addr + k)%nat by lia.
        rewrite (Hat k stat' Hk), Hother by lia. reflexivity.
Qed.

Lemma rebuild_spec (ctx : Context) (forTStruct : bool)
    (m : gmap nat (list Expression)) (oldRHS : list Expression) :
  forall (addr : nat) (rhs : list Expression),
  (forall k stat, oldRHS !! k = Some stat ->
     m !! (addr + k)%nat = storedReplacement ctx forTStruct stat) ->
  rebuild m addr oldRHS rhs = rhs ++ spec_rebuilt ctx forTStruct oldRHS.
Proof.
  unfold spec_rebuilt.
  induction oldRHS as [|stat oldRHS IH]; intros addr rhs Hm; simpl.
  - rewrite app_nil_r. reflexivity.
  - rewrite IH.
    + pose proof (Hm 0%nat stat eq_refl) as H0. rewrite Nat.add_0_r in H0.
      rewrite H0. unfold spec_emit.
      destruct (storedReplacement ctx forTStruct stat);
        rewrite <- app_assoc; reflexivity.
    + intros k stat' Hk. replace (S addr + k)%nat with (addr + S k)%nat by lia.
      apply Hm. exact Hk.
Qed.

(** The whole pass outside autogeneration mode, when no [ENFORCE] fails. *)
Lemma run_returns (ctx : Context) (klass : ClassDef) :
  runningUnderAutogen ctx = false ->
  forallb (classifies ctx) (klass_rhs klass) = true ->
  run ctx klass =
    Returns
      (mkClassDef (klass_loc klass) (klass_name klass) (klass_ancestors klass)
         ((if existsb isTStruct (klass_ancestors klass)
           then mkTStructInitialize ctx (klass_loc klass)
                  (omap (recordOf ctx) (klass_rhs klass))
           else []) ++
          spec_rebuilt ctx (existsb isTStruct (klass_ancestors klass))
            (klass_rhs klass)))
      (concat (map (statOps ctx) (klass_rhs klass))).
Proof.
  intros Hauto Hall. unfold run. rewrite Hauto.
  set (forTStruct := existsb isTStruct (klass_ancestors klass)).
  destruct (scan_spec ctx forTStruct (klass_rhs klass) 0 (mkScan ∅ []) Hall)
    as (scanned & Hscan & Hprops & _ & Hat).
  rewrite Hscan. simpl in Hprops. unfold bind, pure. rewrite app_nil_r.
  f_equal. f_equal. rewrite Hprops.
  apply rebuild_spec. intros k stat Hk.
  rewrite (Hat k stat Hk). simpl. rewrite lookup_empty.
  destruct (storedReplacement ctx forTStruct stat); reflexivity.
Qed.

(** C3.  Outside autogeneration mode, the rebuilt statement list is the
    one traversal of the original statements in their order, each emitted
    unchanged when it has no stored replacement and replaced by its stored
    sequence otherwise; in a struct-derived class the synthesized
    constructor precedes that traversal.  The pass returns this list
    whenever no classification stops on a failed assertion. *)
Theorem run_rebuilds_in_order (ctx : Context) (klass : ClassDef) :
  runningUnderAutogen ctx = false ->
  forallb (classifies ctx) (klass_rhs klass) = true ->
  exists ops constructor,
    run ctx klass =
      Returns
        (mkClassDef (klass_loc klass) (klass_name klass) (klass_ancestors klass)
           (constructor ++
            concat (map (fun stat =>
                           match storedReplacement ctx
                                   (existsb isTStruct (klass_ancestors klass))
                                   stat with
                           | None => [stat]
                           | Some newNodes => newNodes
                           end) (klass_rhs klass))))
        ops /\
    constructor =
      (if existsb isTStruct (klass_ancestors klass)
       then mkTStructInitialize ctx (klass_loc klass)
              (omap (recordOf ctx) (klass_rhs klass))
       else []).
Proof.
  intros Hauto Hall. do 2 eexists.
  split; [apply (run_returns ctx klass Hauto Hall)|reflexivity].
Qed.

(** The constructor of a struct, written over the two partitions. *)
Lemma mkTStructInitialize_partitions (ctx : Context) (klassLoc : LocOffsets)
    (props : list PropInfo) :
  mkTStructInitialize ctx klassLoc props =
  [MK_SigVoid klassLoc
     (MK_Hash klassLoc
        (map sigKey (requiredProps props ++ optionalProps props))
        (map type (requiredProps props ++ optionalProps props)));
   MK_SyntheticMethod klassLoc (mkLoc (file ctx) klassLoc) Names.initialize
     (map requiredArg (requiredProps props) ++
      map optionalArg (optionalProps props))
     (MK_InsSeq klassLoc (map fieldAssign props) (MK_ZSuper klassLoc))].
Proof.
  unfold mkTStructInitialize, initBody.
  rewrite initParams_partition, foldl_addAssign. reflexivity.
Qed.

(** C5.  A declaration whose options give no default (no map at all, or a
    map with neither a truthy [factory] nor a [default] entry) and whose
    type is a nilable wrapper gets the nil literal as default.  The
    constructor mkTStructInitialize builds for any records that include it
    declares it as an optional parameter with the nil default, placed after
    every required parameter and never among them; and in a struct-derived
    class whose body holds the declaration, Prop::run puts that constructor,
    built from the records of the body with this record among them, in
    front of the rebuilt body. *)
Theorem parseProp_nilable_default (ctx : Context) (send : SendNode)
    (ret0 : PropInfo) (rules : option HashNode) (ops0 : list SinkOp) :
  classify ctx send = Returns (Some (ret0, rules)) ops0 ->
  (forall h, rules = Some h ->
     hasTruthyHashValue ctx h Names.factory = false /\
     hasHashValue ctx h Names.default_ = false) ->
  isTNilable (type ret0) = true ->
  exists ret ops,
    parseProp ctx send = Returns (Some ret) ops /\
    default_ ret = MK_Nil (send_loc send) /\
    (forall klassLoc props, In ret props ->
       ~ In ret (requiredProps props) /\
       exists before after,
         optionalProps props = before ++ ret :: after /\
         mkTStructInitialize ctx klassLoc props =
           [MK_SigVoid klassLoc
              (MK_Hash klassLoc
                 (map sigKey (requiredProps props ++ before ++ ret :: after))
                 (map type (requiredProps props ++ before ++ ret :: after)));
            MK_SyntheticMethod klassLoc (mkLoc (file ctx) klassLoc)
              Names.initialize
              (map requiredArg (requiredProps props) ++
               map optionalArg before ++
               MK_OptionalArg (loc ret)
                 (MK_KeywordArg (loc ret) (MK_Local (loc ret) (name ret)))
                 (MK_Nil (loc ret)) :: map optionalArg after)
              (MK_InsSeq klassLoc (map fieldAssign props)
                 (MK_ZSuper klassLoc))]) /\
    (forall klass stat,
       cast_Send stat = Some send ->
       In stat (klass_rhs klass) ->
       runningUnderAutogen ctx = false ->
       forallb (classifies ctx) (klass_rhs klass) = true ->
       existsb isTStruct (klass_ancestors klass) = true ->
       In ret (omap (recordOf ctx) (klass_rhs klass)) /\
       exists ops',
         run ctx klass =
           Returns
             (mkClassDef (klass_loc klass) (klass_name klass)
                (klass_ancestors klass)
                (mkTStructInitialize ctx (klass_loc klass)
                   (omap (recordOf ctx) (klass_rhs klass)) ++
                 spec_rebuilt ctx true (klass_rhs klass)))
             ops').
Proof.
  intros Hc Hrules Hnil.
  pose proof (parseProp_accepted _ _ _ _ _ Hc) as Haccepted.
  apply classify_accepts in Hc. destruct Hc as (Hloc & Hdef0 & _).
  assert (exists ret' ops, match rules with
            | Some rules =>
                ret' <- parseRules ctx rules ret0 ;;
                pure (Some (nilableDefault ret'))
            | None => pure (Some (nilableDefault ret0))
            end = Returns (Some (nilableDefault ret')) ops /\
          sameDeclaration ret0 ret' /\ default_ ret' = nullptr)
    as (ret' & ops & Hparsed & (Hl & _ & _ & Ht) & Hd).
  { destruct rules as [h|].
    - destruct (Hrules h eq_refl) as [Hf Hk].
      destruct (parseRules_returns ctx h ret0)
        as (retc & rulesc & opsc & ret' & opsf & _ & Hp & Hs & Hd & _).
      destruct (rulesDefault_absent ctx h ret0 Hf Hk) as [Hdef _].
      exists ret', ((opsc ++ opsf) ++ []). rewrite Hp.
      split; [reflexivity|]. split; [exact Hs|congruence].
    - exists ret0, []. split; [reflexivity|].
      split; [apply sameDeclaration_refl|exact Hdef0]. }
  rewrite Hparsed in Haccepted.
  assert (nilableDefault ret' = set_default_ (MK_Nil (loc ret')) ret') as Hnd.
  { unfold nilableDefault. rewrite Hd, Ht, Hnil. reflexivity. }
  exists (nilableDefault ret'), ops. split; [exact Haccepted|].
  rewrite Hnd in *. simpl. split; [congruence|]. split.
  - intros klassLoc props Hin. split.
    + unfold requiredProps. rewrite filter_In. simpl. intros [_ Habs].
      discriminate.
    + assert (In (set_default_ (MK_Nil (loc ret')) ret') (optionalProps props))
        as Hopt.
      { unfold optionalProps. rewrite filter_In. split; [exact Hin|reflexivity]. }
      apply in_split in Hopt. destruct Hopt as (before & after & Hopt).
      exists before, after. split; [exact Hopt|].
      rewrite mkTStructInitialize_partitions, Hopt.
      rewrite (map_app optionalArg). reflexivity.
  - intros klass stat Hcast Hstat Hauto Hall Hstruct. split.
    + apply list_elem_of_In, list_elem_of_omap. exists stat.
      split; [apply list_elem_of_In; exact Hstat|].
      unfold recordOf. rewrite Hcast, Haccepted. reflexivity.
    + rewrite (run_returns ctx klass Hauto Hall), Hstruct. eauto.
Qed.

(** C7.  A call with four or more positional arguments, whatever function
    it calls, is rejected without a word to the error sink; the scan of the
    class body stores no replacement and no record for it, and the rebuilt
    body holds the statement itself, between what the statements before it
    and the statements after it have become. *)
Theorem parseProp_four_args_rejected (ctx : Context) (stat : Expression)
    (send : SendNode) :
  cast_Send stat = Some send ->
  (4 <= length (send_args send))%nat ->
  parseProp ctx send = Returns None [] /\
  statOps ctx stat = [] /\
  (forall forTStruct acc addr,
     scanStat ctx forTStruct acc addr stat = Returns acc []) /\
  (forall klass before after,
     klass_rhs klass = before ++ stat :: after ->
     runningUnderAutogen ctx = false ->
     forallb (classifies ctx) (klass_rhs klass) = true ->
     exists klass' ops constructor,
       run ctx klass = Returns klass' ops /\
       klass_rhs klass' =
         constructor ++
         spec_rebuilt ctx (existsb isTStruct (klass_ancestors klass)) before ++
         stat ::
         spec_rebuilt ctx (existsb isTStruct (klass_ancestors klass)) after).
Proof.
  intros Hcast Hlen. apply Nat.leb_le in Hlen.
  assert (parseProp ctx send = Returns None []) as Hparse.
  { apply (parseProp_rejected _ _ []). unfold classify.
    destruct (selectMacro send _); [|reflexivity]. rewrite Hlen. reflexivity. }
  split; [exact Hparse|]. split; [|split].
  - unfold statOps. rewrite Hcast, Hparse. reflexivity.
  - intros forTStruct acc addr. unfold scanStat. rewrite Hcast, Hparse.
    reflexivity.
  - intros klass before after Hrhs Hauto Hall. do 3 eexists.
    split; [apply (run_returns ctx klass Hauto Hall)|]. simpl.
    rewrite Hrhs. unfold spec_rebuilt. rewrite map_app, concat_app. simpl.
    unfold spec_emit at 2, storedReplacement, recordOf.
    rewrite Hcast, Hparse. reflexivity.
Qed.

End Properties.

Lemma run_autogen_unchanged_witness :
  runningUnderAutogen autogenCtx = true /\
  run (env := RefEnv) autogenCtx (structClass mixedBody) =
    Returns (structClass mixedBody) [].
Proof.
  split; [reflexivity|].
  apply (run_autogen_unchanged (env := RefEnv) autogenCtx (structClass mixedBody)).
  reflexivity.
Defined.

(** ** The statements at concrete declarations *)

(** [const :foo, String, computed_by: :calc] records the method. *)
Example parseProp_computedBy_symbol :
  parseProp (env := RefEnv) refCtx (constComputedBy (sym (span 33 38) "calc"))
    = Returns (Some calcRecord) [].
Proof. reflexivity. Qed.

(** [prop :tags, Array[String]]: sig, getter, sig, setter, mutator class
    whose accessor returns [ArrayMutator[String]]. *)
Example processProp_tags :
  parseProp (env := RefEnv) refCtx propTags = Returns (Some tagsDeclared) [] /\
  exists sig getter,
    processProp (env := RefEnv) refCtx tagsDeclared false =
      [sig; getter; setterSig (env := RefEnv) tagsDeclared; setterDef tagsDeclared;
       mutatorClass (env := RefEnv) refCtx tagsDeclared
         (MK_Send1 (span 0 25)
            (mkMutator (span 0 25) Names.Constants.ArrayMutator)
            Names.squareBrackets (cnst (span 18 24) "String"))].
Proof. split; [reflexivity|]. do 2 eexists. reflexivity. Qed.

(** Both token aliases give the same name and type; only the location of
    the name differs. *)
Example parseProp_token_aliases :
  exists ret ret',
    parseProp (env := RefEnv) refCtx (call (span 0 10) Names.tokenProp [])
      = Returns (Some ret) [] /\
    parseProp (env := RefEnv) refCtx timestampedTokenProp0
      = Returns (Some ret') [] /\
    name ret = name ret' /\
    type ret = MK_Constant (span 0 10) Symbols.String /\
    type ret' = MK_Constant (span 0 22) Symbols.String /\
    nameLoc ret = span 0 5 /\ nameLoc ret' = span 12 17.
Proof. do 2 eexists. repeat split. Qed.

(** The body [Foo; const :foo, Foo; prop :a, A, 1, 2; prop :nick,
    T.nilable(String); nil] of a struct: the constructor first, then every
    statement or its replacement, in the original order. *)
Example run_mixedBody :
  exists klass' sig init sigFoo getFoo sigNick getNick sigNick' setNick,
    run (env := RefEnv) refCtx (structClass mixedBody) = Returns klass' [] /\
    klass_rhs klass' =
      [sig; init;
       cnst (span 0 3) "Foo";
       sigFoo; getFoo;
       propFourArgs;
       sigNick; getNick; sigNick'; setNick;
       Literal (span 80 83) LitNil].
Proof. do 9 eexists. split; reflexivity. Qed.

(** C1 as the spec words it fails on [const :foo, Foo]: the declaration is
    recognised, its type is a user-defined constant, and the nodes that
    replace it hold no mutator class at all. *)
Lemma processProp_mutator_class_counterexample :
  parseProp (env := RefEnv) refCtx constFoo = Returns (Some fooDeclared) [] /\
  type fooDeclared = UnresolvedConstantLit (span 12 15) EmptyTree (CONSTANT "Foo") /\
  existsb isMutatorClass (processProp (env := RefEnv) refCtx fooDeclared false)
    = false /\
  forall l d n a rhs,
    ~ In (MK_Class l d n a rhs)
         (processProp (env := RefEnv) refCtx fooDeclared false).
Proof.
  split; [reflexivity|]. split; [reflexivity|]. split; [reflexivity|].
  intros l d n a rhs. vm_compute. intros [Hin|[Hin|[]]]; discriminate.
Qed.

Lemma processProp_mutator_class_witness :
  isCollectionType (env := RefEnv) refCtx tagsDeclared = true /\
  isImmutable tagsDeclared = false /\
  processProp (env := RefEnv) refCtx tagsDeclared false !! 2%nat
    = Some (setterSig (env := RefEnv) tagsDeclared) /\
  processProp (env := RefEnv) refCtx tagsDeclared false !! 3%nat
    = Some (setterDef tagsDeclared) /\
  exists m,
    list.last (processProp (env := RefEnv) refCtx tagsDeclared false) =
      Some (mutatorClass (env := RefEnv) refCtx tagsDeclared m).
Proof.
  destruct (processProp_mutator_class (env := RefEnv) refCtx tagsDeclared false)
    as (_ & _ & Hsetter & _ & Hclass).
  destruct (Hsetter eq_refl) as [Hsig Hdef].
  split; [reflexivity|]. split; [reflexivity|].
  split; [exact Hsig|]. split; [exact Hdef|].
  exact (Hclass eq_refl).
Defined.

Lemma run_rebuilds_in_order_witness :
  runningUnderAutogen refCtx = false /\
  forallb (classifies (env := RefEnv) refCtx) mixedBody = true /\
  exists ops constructor,
    run (env := RefEnv) refCtx (structClass mixedBody) =
      Returns
        (structClass
           (constructor ++
            concat (map (fun stat =>
                           match storedReplacement (env := RefEnv) refCtx true
                                   stat with
                           | None => [stat]
                           | Some newNodes => newNodes
                           end) mixedBody)))
        ops /\
    constructor =
      mkTStructInitialize refCtx (span 0 100)
        (omap (recordOf (env := RefEnv) refCtx) mixedBody).
Proof.
  split; [reflexivity|]. split; [reflexivity|].
  apply (run_rebuilds_in_order (env := RefEnv) refCtx (structClass mixedBody));
    reflexivity.
Defined.

Lemma processProp_getter_body_witness :
  exists_ (computedByMethodName calcRecord) = true /\
  processProp (env := RefEnv) refCtx calcRecord true !! 1%nat =
    Some (mkGet (loc calcRecord) (name calcRecord)
            (computedGetterBody (env := RefEnv) calcRecord)).
Proof.
  split; [reflexivity|].
  apply (processProp_getter_body (env := RefEnv) refCtx calcRecord true).
  reflexivity.
Defined.

Lemma parseProp_nilable_default_witness :
  classify (env := RefEnv) refCtx propNickImmutable
    = Returns (Some (nickOptionsDeclared, Some nickRules)) [] /\
  ref_hasTruthyHashValue refCtx nickRules Names.factory = false /\
  ref_hasHashValue refCtx nickRules Names.default_ = false /\
  isTNilable (type nickOptionsDeclared) = true /\
  parseProp (env := RefEnv) refCtx propNickImmutable
    = Returns (Some nickRecord) [] /\
  exists sig required body ops,
    run (env := RefEnv) refCtx nickStruct =
      Returns
        (structClass
           ([sig;
             MK_SyntheticMethod (span 0 100) (mkLoc 0 (span 0 100))
               Names.initialize
               [required;
                MK_OptionalArg (span 0 50)
                  (MK_KeywordArg (span 0 50)
                     (MK_Local (span 0 50) (UTF8 "nick")))
                  (MK_Nil (span 0 50))]
               body] ++
            spec_rebuilt (env := RefEnv) refCtx true (klass_rhs nickStruct)))
        ops.
Proof.
  split; [reflexivity|]. split; [reflexivity|]. split; [reflexivity|].
  split; [reflexivity|].
  destruct (parseProp_nilable_default (env := RefEnv) refCtx propNickImmutable
              nickOptionsDeclared (Some nickRules) [])
    as (ret & ops & Hparse & Hdefault & Hinit & Hrun);
    [reflexivity|intros h [= <-]; split; reflexivity|reflexivity|].
  assert (Returns (Some ret) ops = Returns (Some nickRecord) []) as [= -> ->]
    by (rewrite <- Hparse; reflexivity).
  split; [exact Hparse|].
  destruct (Hrun nickStruct
              (callStat (span 0 50) Names.prop (send_args propNickImmutable))
              eq_refl (or_intror (or_introl eq_refl)) eq_refl eq_refl eq_refl)
    as (Hin & ops' & Hreturned).
  destruct (Hinit (klass_loc nickStruct) _ Hin)
    as (_ & before & after & Hopt & Hctor).
  rewrite Hctor in Hreturned.
  assert (before = [] /\ after = []) as [-> ->].
  { vm_compute in Hopt. destruct before as [|p [|q before]]; simpl in Hopt.
    - injection Hopt as <-. split; reflexivity.
    - discriminate.
    - discriminate. }
  do 3 eexists. exists ops'. rewrite Hreturned. reflexivity.
Defined.

(** C6 as the spec words it fails on [token_prop :foo]: the call supplies
    a name argument and is accepted all the same. *)
Lemma parseProp_token_alias_counterexample :
  isTokenAlias (send_fun tokenPropFoo) = true /\
  symbolLit (at_ (send_args tokenPropFoo) 0) = Some (span 11 15, UTF8 "foo") /\
  exists ret,
    parseProp (env := RefEnv) refCtx tokenPropFoo = Returns (Some ret) [] /\
    name ret = Names.token.
Proof.
  split; [reflexivity|]. split; [reflexivity|].
  eexists. split; reflexivity.
Qed.

Lemma parseProp_token_alias_witness :
  isTokenAlias (send_fun timestampedTokenProp0) = true /\
  exists r ops,
    parseProp (env := RefEnv) refCtx timestampedTokenProp0 = Returns r ops /\
    forall ret, r = Some ret ->
      name ret = Names.token /\
      type ret = MK_Constant (send_loc timestampedTokenProp0) Symbols.String.
Proof.
  split; [reflexivity|].
  destruct (parseProp_token_alias (env := RefEnv) refCtx timestampedTokenProp0)
    as (r & ops & Hparse & _ & Hrecord); [reflexivity|reflexivity|].
  exists r, ops. split; assumption.
Defined.

Lemma parseProp_four_args_rejected_witness :
  (4 <= length (send_args (call (span 0 20) Names.prop
      [sym (span 5 7) "a"; cnst (span 9 10) "A";
       Literal (span 12 13) (LitInteger 1);
       Literal (span 15 16) (LitInteger 2)])))%nat /\
  statOps (env := RefEnv) refCtx propFourArgs = [].
Proof.
  split; [simpl; lia|].
  apply (parseProp_four_args_rejected (env := RefEnv) refCtx propFourArgs
           (call (span 0 20) Names.prop
              [sym (span 5 7) "a"; cnst (span 9 10) "A";
               Literal (span 12 13) (LitInteger 1);
               Literal (span 15 16) (LitInteger 2)]));
    [reflexivity|simpl; lia].
Defined.

(** C8 as the spec words it fails on [const :foo, String, computed_by: nil]:
    the map holds a [computed_by] entry whose value is no symbol literal,
    classification succeeds with the field unset, and the sink is never
    asked for a diagnostic. *)
Lemma parseProp_computedBy_counterexample :
  let value := Literal (span 33 36) LitNil in
  ref_hasHashValue refCtx (computedRules value) Names.computedBy = true /\
  ref_extractHashValue refCtx (computedRules value) Names.computedBy
    = ((sym (span 20 31) "computed_by", value), mkHashNode (span 20 40) [] []) /\
  symbolLit value = None /\
  classify (env := RefEnv) refCtx (constComputedBy value)
    = Returns (Some (computedDeclared, Some (computedRules value))) [] /\
  parseProp (env := RefEnv) refCtx (constComputedBy value)
    = Returns (Some computedDeclared) [].
Proof. repeat split. Qed.

Lemma parseProp_computedBy_malformed_witness :
  let value := Literal (span 33 34) (LitInteger 3) in
  classify (env := RefEnv) refCtx (constComputedBy value)
    = Returns (Some (computedDeclared, Some (computedRules value))) [] /\
  exists ret ops,
    parseProp (env := RefEnv) refCtx (constComputedBy value)
      = Returns (Some ret) ops /\
    computedByMethodName ret = noName /\
    In (BeginError (span 33 34) ComputedBySymbol) ops.
Proof.
  intros value. split; [reflexivity|].
  destruct (parseProp_computedBy_malformed (env := RefEnv) refCtx
              (constComputedBy value) computedDeclared (computedRules value) [])
    as (ret & ops & Hparse & Htruthy & _); [reflexivity|].
  destruct (Htruthy eq_refl (sym (span 20 31) "computed_by") value
              (mkHashNode (span 20 40) [] []) eq_refl eq_refl)
    as (Hunset & Hasked & _).
  exists ret, ops. repeat split; assumption.
Defined.

Lemma parseProp_factory_over_default_witness :
  classify (env := RefEnv) refCtx propFactoryDefault
    = Returns (Some (factoryDeclared, Some factoryRules)) [] /\
  ref_hasTruthyHashValue refCtx factoryRules Names.factory = true /\
  ref_hasHashValue refCtx factoryRules Names.default_ = true /\
  exists ret ops,
    parseProp (env := RefEnv) refCtx propFactoryDefault = Returns (Some ret) ops /\
    default_ ret = MK_RaiseUnimplemented (send_loc propFactoryDefault).
Proof.
  split; [reflexivity|]. split; [reflexivity|]. split; [reflexivity|].
  destruct (parseProp_factory_over_default (env := RefEnv) refCtx
              propFactoryDefault factoryDeclared factoryRules [])
    as (ret & ops & Hparse & Hdefault & _); [reflexivity..|].
  exists ret, ops. split; assumption.
Defined.

(** ** Further properties of the pass *)

Section Classification.
Context {env : Env}.

(** The steps a call has passed when classification accepts it. *)
Lemma classify_inv (ctx : Context) (send : SendNode) ret0 rules ops :
  classify ctx send = Returns (Some (ret0, rules)) ops ->
  exists ret1 ret2,
    selectMacro send (PropInfo_new (send_loc send)) = Some ret1 /\
    propName ctx send ret1 = Returns (Some ret2) [] /\
    propType send ret2 = Returns (Some ret0) [] /\
    propRules send = Some rules /\
    (length (send_args send) < 4)%nat.
Proof.
  unfold classify.
  destruct (selectMacro send _) as [ret1|]; [|discriminate].
  destruct (4 <=? length (send_args send))%nat eqn:Hlen; [discriminate|].
  apply Nat.leb_gt in Hlen.
  intros Hb. apply bind_Returns in Hb.
  destruct Hb as ([ret2|] & ops1 & ops2 & Hname & Hrest & ->); [|discriminate].
  apply bind_Returns in Hrest.
  destruct Hrest as ([ret3|] & ops3 & ops4 & Htype & Hrest & ->); [|discriminate].
  destruct (propRules send) as [rules'|]; [|discriminate].
  injection Hrest as <- <- <-.
  pose proof (propName_fields _ _ _ _ _ Hname) as (-> & _).
  pose proof (propType_fields _ _ _ _ Htype) as (-> & _).
  exists ret1, ret2. repeat split; assumption.
Qed.

(** What stands behind a record parseProp returns. *)
Lemma parseProp_Some_inv (ctx : Context) (send : SendNode) ret ops :
  parseProp ctx send = Returns (Some ret) ops ->
  exists ret0 rules ret',
    classify ctx send = Returns (Some (ret0, rules)) [] /\
    ret = nilableDefault ret' /\
    match rules with
    | Some h => parseRules ctx h ret0 = Returns ret' ops
    | None => ret' = ret0 /\ ops = []
    end.
Proof.
  unfold parseProp. intros Hb. apply bind_Returns in Hb.
  destruct Hb as ([[ret0 rules]|] & ops1 & ops2 & Hc & Hrest & ->);
    [|discriminate].
  pose proof (classify_silent _ _ _ _ Hc) as ->.
  exists ret0, rules. destruct rules as [h|].
  - apply bind_Returns in Hrest.
    destruct Hrest as (ret' & ops3 & ops4 & Hp & [= <- <-] & ->).
    exists ret'. rewrite app_nil_r. simpl. repeat split; assumption.
  - injection Hrest as <- <-. exists ret0. repeat split. exact Hc.
Qed.

(** X1.  A call whose function is none of the six macro names is left
    alone: parseProp returns no record and does not touch the error sink,
    whatever the arguments, and the scan of the class body records
    nothing for it. *)
Theorem parseProp_unrecognized_name (ctx : Context) (stat : Expression)
    (send : SendNode) :
  cast_Send stat = Some send ->
  ~ In (send_fun send) macroNames ->
  parseProp ctx send = Returns None [] /\
  forall forTStruct acc addr,
    scanStat ctx forTStruct acc addr stat = Returns acc [].
Proof.
  intros Hcast Hnot.
  assert (selectMacro send (PropInfo_new (send_loc send)) = None) as Hsel.
  { unfold selectMacro.
    repeat (case_bool_decide;
            [exfalso; apply Hnot;
             match goal with Hf : send_fun send = _ |- _ => rewrite Hf end;
             simpl; tauto|]; simpl).
    reflexivity. }
  assert (parseProp ctx send = Returns None []) as Hparse.
  { apply (parseProp_rejected _ _ []). unfold classify. rewrite Hsel.
    reflexivity. }
  split; [exact Hparse|].
  intros forTStruct acc addr. unfold scanStat. rewrite Hcast, Hparse.
  reflexivity.
Qed.

Lemma parseProp_None_ops (ctx : Context) (send : SendNode)
    (ops : list SinkOp) :
  parseProp ctx send = Returns None ops -> ops = [].
Proof.
  unfold parseProp. intros Hb. apply bind_Returns in Hb.
  destruct Hb as ([[ret0 rules]|] & ops1 & ops2 & Hc & Hrest & ->).
  - exfalso. destruct rules as [h|].
    + apply bind_Returns in Hrest.
      destruct Hrest as (ret' & ops3 & ops4 & _ & Hp & _). discriminate.
    + discriminate.
  - pose proof (classify_silent _ _ _ _ Hc) as ->.
    injection Hrest as <-. reflexivity.
Qed.

(** X2.  Rejection is silent: whenever parseProp returns without a record,
    it has performed no operation on the error sink; a diagnostic is only
    ever reported for a call that is accepted. *)
Theorem parseProp_rejection_silent (ctx : Context) (send : SendNode)
    (ops : list SinkOp) :
  parseProp ctx send = Returns None ops -> ops = [].
Proof. apply parseProp_None_ops. Qed.

(** X3.  What an accepted [prop] or [const] call guarantees: it has two or
    three arguments; the first is a symbol literal, which names the record,
    and the location of the name is that of the literal without its leading
    colon (one offset further, in 32-bit arithmetic); the type of the record
    is the clone of the second argument, which is not null; a third
    argument is a map literal; and the record carries the location of the
    call. *)
Theorem parseProp_plain_accepted (ctx : Context) (send : SendNode)
    (ret : PropInfo) (ops : list SinkOp) :
  isPlainMacro (send_fun send) = true ->
  parseProp ctx send = Returns (Some ret) ops ->
  exists symLoc symName,
    send_args send !! 0%nat = Some (Literal symLoc (LitSymbol symName)) /\
    name ret = symName /\
    nameLoc ret = mkLocOffsets ((beginLoc symLoc + 1) mod 2 ^ 32) (endLoc symLoc) /\
    loc ret = send_loc send /\
    (2 <= length (send_args send) <= 3)%nat /\
    type ret = dupType (at_ (send_args send) 1) /\
    isNull (type ret) = false /\
    (length (send_args send) = 3%nat ->
     exists h, cast_Hash (at_ (send_args send) 2) = Some h).
Proof.
  intros Hplain Hparse.
  destruct (parseProp_Some_inv _ _ _ _ Hparse)
    as (ret0 & rules & ret' & Hc & -> & Hrules).
  assert (sameDeclaration ret0 (nilableDefault ret')) as (Hl & Hn & Hnl & Ht).
  { apply sameDeclaration_trans with ret'; [|apply nilableDefault_same].
    destruct rules as [h|].
    - destruct (parseRules_returns ctx h ret0)
        as (? & ? & ? & ret'' & ? & _ & Hp & Hs & _).
      rewrite Hp in Hrules. injection Hrules as <- _. exact Hs.
    - destruct Hrules as [-> _]. apply sameDeclaration_refl. }
  rewrite Hl, Hn, Hnl, Ht. clear Hl Hn Hnl Ht Hrules Hparse ret'.
  destruct (classify_inv _ _ _ _ _ Hc)
    as (ret1 & ret2 & Hsel & Hname & Htype & Hpr & Hlen).
  assert (ret1 = PropInfo_new (send_loc send) \/
          ret1 = set_isImmutable true (PropInfo_new (send_loc send))) as Hret1.
  { unfold isPlainMacro in Hplain. unfold selectMacro in Hsel.
    apply orb_true_iff in Hplain.
    destruct Hplain as [Hf|Hf]; apply bool_decide_eq_true in Hf;
      rewrite Hf in Hsel; simpl in Hsel; injection Hsel as <-; tauto. }
  assert (name ret1 = noName /\ type ret1 = nullptr /\
          loc ret1 = send_loc send) as (Hn1 & Ht1 & Hl1)
    by (destruct Hret1 as [-> | ->]; repeat split).
  clear Hret1 Hsel.
  unfold propName in Hname. rewrite Hn1 in Hname. simpl in Hname.
  destruct (empty_ (send_args send)) eqn:Hempty; [discriminate|].
  destruct (symbolLit (at_ (send_args send) 0)) as [[symLoc symName]|] eqn:Hsym;
    [|discriminate].
  apply bind_Returns in Hname.
  destruct Hname as (u & ops1 & ops2 & _ & [= <-] & _).
  unfold propType in Htype. simpl in Htype. rewrite Ht1 in Htype.
  simpl in Htype.
  destruct (length (send_args send) =? 1)%nat eqn:Hone; [discriminate|].
  apply Nat.eqb_neq in Hone.
  destruct (isNull (dupType (at_ (send_args send) 1))) eqn:Hdup; [discriminate|].
  apply bind_Returns in Htype.
  destruct Htype as (u' & ops3 & ops4 & _ & [= <-] & _). simpl.
  assert (send_args send !! 0%nat = Some (Literal symLoc (LitSymbol symName)))
    as Harg0.
  { unfold at_ in Hsym. destruct (send_args send !! 0%nat) as [a0|]; simpl in Hsym.
    - destruct a0; try discriminate.
      destruct value; try discriminate. injection Hsym as <- <-. reflexivity.
    - discriminate. }
  assert (length (send_args send) <> 0)%nat as Hnz.
  { destruct (send_args send); [discriminate|]. simpl. lia. }
  exists symLoc, symName. unfold u4, beginPos, endPos.
  repeat split; try assumption; try lia.
  intros Hthree. unfold propRules in Hpr. rewrite Hempty in Hpr. simpl in Hpr.
  unfold deepCopy in Hpr.
  assert (back (send_args send) = at_ (send_args send) 2) as Hback.
  { destruct (send_args send) as [|a0 [|a1 [|a2 [|a3 more]]]];
      try discriminate. reflexivity. }
  rewrite Hback in Hpr.
  destruct (cast_Hash (at_ (send_args send) 2)) as [h|]; [eauto|].
  rewrite Hthree in Hpr. discriminate.
Qed.

(** *** Fields of the record through the steps of parseProp *)

Lemma selectMacro_immutable (send : SendNode) (ret1 : PropInfo) :
  selectMacro send (PropInfo_new (send_loc send)) = Some ret1 ->
  isImmutable ret1 =
    bool_decide (send_fun send = Names.const_) ||
    bool_decide (send_fun send = Names.merchantProp).
Proof.
  unfold selectMacro. destruct send as [l r f a b]. simpl.
  repeat case_bool_decide; subst; simpl; try discriminate;
    intros [= <-]; reflexivity.
Qed.

Lemma propName_named (ctx : Context) (send : SendNode) (ret0 : PropInfo) :
  exists_ (name ret0) = true ->
  propName ctx send ret0 = Returns (Some ret0) [].
Proof. intros Hn. unfold propName. rewrite Hn. reflexivity. Qed.

Lemma propName_immutable (ctx : Context) (send : SendNode) ret0 ret ops :
  propName ctx send ret0 = Returns (Some ret) ops ->
  isImmutable ret = isImmutable ret0 /\ foreign ret = foreign ret0 /\
  ifunset ret = ifunset ret0.
Proof.
  unfold propName. destruct (exists_ (name ret0)); simpl.
  - intros [= <- _]. repeat split.
  - destruct (empty_ (send_args send)); [discriminate|].
    destruct (symbolLit _) as [[symLoc symName]|]; [|discriminate].
    intros Hb. apply bind_Returns in Hb.
    destruct Hb as (u & ops1 & ops2 & _ & [= <- _] & _). repeat split.
Qed.

Lemma propType_typed (send : SendNode) (ret0 ret : PropInfo) ops :
  isNull (type ret0) = false ->
  propType send ret0 = Returns (Some ret) ops -> ret = ret0.
Proof.
  intros Hnull. unfold propType. rewrite Hnull.
  intros Hb. apply bind_Returns in Hb.
  destruct Hb as (u & ops1 & ops2 & _ & [= <- _] & _). reflexivity.
Qed.

Lemma propType_immutable (send : SendNode) (ret0 ret : PropInfo) ops :
  propType send ret0 = Returns (Some ret) ops ->
  isImmutable ret = isImmutable ret0 /\ foreign ret = foreign ret0 /\
  ifunset ret = ifunset ret0 /\ nameLoc ret = nameLoc ret0.
Proof.
  unfold propType. destruct (isNull (type ret0)).
  - destruct (length (send_args send) =? 1)%nat; [discriminate|].
    destruct (isNull (type (set_type _ ret0))); [discriminate|].
    intros Hb. apply bind_Returns in Hb.
    destruct Hb as (u & ops1 & ops2 & _ & [= <- _] & _). repeat split.
  - intros Hb. apply bind_Returns in Hb.
    destruct Hb as (u & ops1 & ops2 & _ & [= <- _] & _). repeat split.
Qed.

Lemma rulesDefault_fields (ctx : Context) (rules : HashNode) (ret : PropInfo) :
  isImmutable (rulesDefault ctx rules ret).1 =
    isImmutable ret || hasTruthyHashValue ctx rules Names.immutable /\
  foreign (rulesDefault ctx rules ret).1 = foreign ret /\
  ifunset (rulesDefault ctx rules ret).1 = ifunset ret.
Proof.
  unfold rulesDefault.
  destruct (hasTruthyHashValue ctx rules Names.immutable);
    (destruct (hasTruthyHashValue ctx rules Names.factory);
     [|destruct (hasHashValue ctx rules Names.default_);
       [destruct (extractHashValue ctx rules Names.default_) as [[k v] r]|]]);
    simpl; rewrite ?orb_true_r, ?orb_false_r; repeat split.
Qed.

Lemma rulesComputedBy_fields (ctx : Context) (rules : HashNode)
    (ret : PropInfo) retc rulesc opsc :
  rulesComputedBy ctx rules ret = Returns (retc, rulesc) opsc ->
  isImmutable retc = isImmutable ret /\ foreign retc = foreign ret /\
  ifunset retc = ifunset ret /\ default_ retc = default_ ret /\
  sameDeclaration ret retc.
Proof.
  unfold rulesComputedBy.
  destruct (hasTruthyHashValue ctx rules Names.computedBy).
  - destruct (extractHashValue ctx rules Names.computedBy) as [[k v] r].
    destruct (symbolLit v) as [[litLoc litName]|].
    + intros [= <- _ _]. repeat split.
    + intros Hb. apply bind_Returns in Hb.
      destruct Hb as (u & ops1 & ops2 & _ & [= <- _ _] & _). repeat split.
  - intros [= <- _ _]. repeat split.
Qed.

Lemma rulesForeign_fields (ctx : Context) (rules : HashNode)
    (ret : PropInfo) retf rulesf opsf :
  rulesForeign ctx rules ret = Returns (retf, rulesf) opsf ->
  isImmutable retf = isImmutable ret /\ ifunset retf = ifunset ret /\
  default_ retf = default_ ret /\
  computedByMethodName retf = computedByMethodName ret /\
  computedByMethodNameLoc retf = computedByMethodNameLoc ret /\
  sameDeclaration ret retf.
Proof.
  unfold rulesForeign.
  destruct (extractHashValue ctx rules Names.foreign) as [[fk foreignTree] r].
  destruct (isNull foreignTree); simpl.
  - intros [= <- _ _]. repeat split.
  - destruct (isNull (thunkBody ctx foreignTree)); simpl.
    + intros [= <- _ _]. repeat split.
    + intros [= <- _ _]. repeat split.
Qed.

Lemma rulesIfunset_fields (ctx : Context) (rules : HashNode) (ret : PropInfo) :
  isImmutable (rulesIfunset ctx rules ret) = isImmutable ret /\
  foreign (rulesIfunset ctx rules ret) = foreign ret /\
  computedByMethodNameLoc (rulesIfunset ctx rules ret)
    = computedByMethodNameLoc ret.
Proof.
  unfold rulesIfunset.
  destruct (extractHashValue ctx rules Names.ifunset) as [[k v] r].
  destruct (isNull v); repeat split.
Qed.

Lemma nilableDefault_fields (ret : PropInfo) :
  isImmutable (nilableDefault ret) = isImmutable ret /\
  foreign (nilableDefault ret) = foreign ret /\
  ifunset (nilableDefault ret) = ifunset ret /\
  computedByMethodNameLoc (nilableDefault ret) = computedByMethodNameLoc ret.
Proof.
  unfold nilableDefault.
  destruct (isNull (default_ ret) && isTNilable (type ret)); repeat split.
Qed.

(** The three steps of reading an options map, one after the other. *)
Lemma parseRules_steps (ctx : Context) (h : HashNode) (ret ret' : PropInfo) ops :
  parseRules ctx h ret = Returns ret' ops ->
  exists retc rulesc opsc retf rulesf opsf,
    rulesComputedBy ctx (rulesDefault ctx h ret).2 (rulesDefault ctx h ret).1
      = Returns (retc, rulesc) opsc /\
    rulesForeign ctx rulesc retc = Returns (retf, rulesf) opsf /\
    ret' = rulesIfunset ctx rulesf retf /\
    ops = opsc ++ opsf.
Proof.
  unfold parseRules.
  destruct (rulesDefault ctx h ret) as [retd rulesd]. simpl.
  intros Hb. apply bind_Returns in Hb.
  destruct Hb as ([retc rulesc] & opsc & ops2 & Hc & Hrest & ->).
  apply bind_Returns in Hrest.
  destruct Hrest as ([retf rulesf] & opsf & ops3 & Hf & [= <- <-] & ->).
  exists retc, rulesc, opsc, retf, rulesf, opsf.
  rewrite app_nil_r. repeat split; assumption.
Qed.

(** The options map the later steps read is the one propRules copied. *)
Lemma rulesOf_classified (ctx : Context) (send : SendNode) ret0 rules ops :
  classify ctx send = Returns (Some (ret0, rules)) ops ->
  rulesOf send = rules.
Proof.
  intros Hc. apply classify_accepts in Hc.
  destruct Hc as (_ & _ & _ & _ & Hpr & _).
  unfold rulesOf. rewrite Hpr. reflexivity.
Qed.

(** The setters among the nodes of one declaration. *)
Lemma processProp_setters (ctx : Context) (ret : PropInfo) (forTStruct : bool) :
  existsb isSetter (processProp ctx ret forTStruct) = negb (isImmutable ret).
Proof.
  rewrite processProp_parts, processGetter_nodes, processSetter_nodes.
  rewrite !existsb_app.
  assert (existsb isSetter (processForeign ctx ret) = false) as ->.
  { apply not_true_is_false. intros Hex.
    apply existsb_exists in Hex. destruct Hex as (e & Hin & He).
    apply processForeign_nodes in Hin.
    destruct e; try contradiction; discriminate. }
  assert (existsb isSetter (processMutator ctx ret) = false) as ->.
  { pose proof (processMutator_nodes ctx ret) as Hmut.
    destruct (isCollectionType ctx ret).
    - destruct Hmut as [m ->]. reflexivity.
    - rewrite Hmut. reflexivity. }
  destruct (isImmutable ret); reflexivity.
Qed.

Lemma parseProp_isImmutable (ctx : Context) (send : SendNode)
    (ret : PropInfo) (ops : list SinkOp) :
  parseProp ctx send = Returns (Some ret) ops ->
  isImmutable ret =
    (bool_decide (send_fun send = Names.const_) ||
     bool_decide (send_fun send = Names.merchantProp) ||
     match rulesOf send with
     | Some h => hasTruthyHashValue ctx h Names.immutable
     | None => false
     end).
Proof.
  intros Hparse.
  destruct (parseProp_Some_inv _ _ _ _ Hparse)
    as (ret0 & rules & ret' & Hc & -> & Hrules).
  rewrite (rulesOf_classified _ _ _ _ _ Hc).
  destruct (classify_inv _ _ _ _ _ Hc)
    as (ret1 & ret2 & Hsel & Hname & Htype & _).
  apply selectMacro_immutable in Hsel.
  apply propName_immutable in Hname. destruct Hname as (Hi2 & _).
  apply propType_immutable in Htype. destruct Htype as (Hi0 & _).
  destruct (nilableDefault_fields ret') as (-> & _).
  destruct rules as [h|].
  - destruct (parseRules_steps _ _ _ _ _ Hrules)
      as (retc & rulesc & opsc & retf & rulesf & opsf & Hcb & Hf & -> & _).
    destruct (rulesIfunset_fields ctx rulesf retf) as (-> & _).
    apply rulesForeign_fields in Hf. destruct Hf as (-> & _).
    apply rulesComputedBy_fields in Hcb. destruct Hcb as (-> & _).
    destruct (rulesDefault_fields ctx h ret0) as (-> & _). congruence.
  - destruct Hrules as [-> _]. rewrite orb_false_r. congruence.
Qed.

(** X4.  Where immutability comes from, and what it does: the record of an
    accepted call is immutable exactly when the call is [const] or
    [merchant_prop] or its options map has a truthy [immutable] entry; and
    the nodes that replace the call hold a setter at class level exactly
    when the record is not immutable. *)
Theorem parseProp_immutability (ctx : Context) (send : SendNode)
    (ret : PropInfo) (ops : list SinkOp) (forTStruct : bool) :
  parseProp ctx send = Returns (Some ret) ops ->
  isImmutable ret =
    (bool_decide (send_fun send = Names.const_) ||
     bool_decide (send_fun send = Names.merchantProp) ||
     match rulesOf send with
     | Some h => hasTruthyHashValue ctx h Names.immutable
     | None => false
     end) /\
  existsb isSetter (processProp ctx ret forTStruct) = negb (isImmutable ret).
Proof.
  intros Hparse.
  split; [exact (parseProp_isImmutable _ _ _ _ Hparse)|apply processProp_setters].
Qed.

(** X5.  The records of the two remaining aliases: an accepted
    [created_prop] is named [created] and typed as the float type; an
    accepted [merchant_prop] is named [merchant], typed as the string type
    and immutable; in both the name is located at the call without its last
    five characters. *)
Theorem parseProp_created_merchant (ctx : Context) (send : SendNode)
    (ret : PropInfo) (ops : list SinkOp) :
  parseProp ctx send = Returns (Some ret) ops ->
  (send_fun send = Names.createdProp ->
     name ret = Names.created /\
     type ret = MK_Constant (send_loc send) Symbols.Float) /\
  (send_fun send = Names.merchantProp ->
     name ret = Names.merchant /\
     type ret = MK_Constant (send_loc send) Symbols.String /\
     isImmutable ret = true) /\
  (send_fun send = Names.createdProp \/ send_fun send = Names.merchantProp ->
     nameLoc ret =
       mkLocOffsets (beginLoc (send_loc send))
                    ((endLoc (send_loc send) - 5) mod 2 ^ 32)).
Proof.
  intros Hparse.
  pose proof (parseProp_isImmutable ctx send ret ops Hparse) as Himm.
  destruct (parseProp_Some_inv _ _ _ _ Hparse)
    as (ret0 & rules & ret' & Hc & -> & Hrules).
  assert (sameDeclaration ret0 (nilableDefault ret')) as (_ & Hn & Hnl & Ht).
  { apply sameDeclaration_trans with ret'; [|apply nilableDefault_same].
    destruct rules as [h|].
    - destruct (parseRules_returns ctx h ret0)
        as (? & ? & ? & ret'' & ? & _ & Hp & Hs & _).
      rewrite Hp in Hrules. injection Hrules as <- _. exact Hs.
    - destruct Hrules as [-> _]. apply sameDeclaration_refl. }
  rewrite Hn, Hnl, Ht.
  destruct (classify_inv _ _ _ _ _ Hc)
    as (ret1 & ret2 & Hsel & Hname & Htype & _).
  assert (send_fun send = Names.createdProp \/
          send_fun send = Names.merchantProp ->
          ret0 = ret1) as Hsame.
  { intros Hf.
    assert (exists_ (name ret1) = true /\ isNull (type ret1) = false)
      as [Hex Hty].
    { unfold selectMacro in Hsel.
      destruct Hf as [Hf|Hf]; rewrite Hf in Hsel; simpl in Hsel;
        injection Hsel as <-; split; reflexivity. }
    rewrite (propName_named ctx send ret1 Hex) in Hname.
    injection Hname as <-. exact (propType_typed _ _ _ _ Hty Htype). }
  unfold selectMacro in Hsel.
  split; [|split].
  - intros Hf. rewrite (Hsame (or_introl Hf)).
    rewrite Hf in Hsel. simpl in Hsel. injection Hsel as <-. split; reflexivity.
  - intros Hf. rewrite (Hsame (or_intror Hf)). split; [|split].
    + rewrite Hf in Hsel. simpl in Hsel. injection Hsel as <-. reflexivity.
    + rewrite Hf in Hsel. simpl in Hsel. injection Hsel as <-. reflexivity.
    + rewrite Himm, Hf. reflexivity.
  - intros Hf. rewrite (Hsame Hf).
    destruct Hf as [Hf|Hf]; rewrite Hf in Hsel; simpl in Hsel;
      injection Hsel as <-; reflexivity.
Qed.

(** X6.  The default of an accepted record, case by case: the
    unimplemented placeholder under a truthy [factory]; otherwise the value
    taken out of the map under [default], whatever it is, even for a
    nilable type; otherwise (no such entry, or no map) the nil literal for
    a nilable type and no default at all for any other type. *)
Theorem parseProp_default_cases (ctx : Context) (send : SendNode)
    (ret : PropInfo) (ops : list SinkOp) :
  parseProp ctx send = Returns (Some ret) ops ->
  let synthesized :=
    if isTNilable (type ret) then MK_Nil (send_loc send) else nullptr in
  default_ ret =
    match rulesOf send with
    | Some h =>
        if hasTruthyHashValue ctx h Names.factory
        then MK_RaiseUnimplemented (send_loc send)
        else if hasHashValue ctx h Names.default_
        then
          let val := (extractHashValue ctx h Names.default_).1.2 in
          if isNull val then synthesized else val
        else synthesized
    | None => synthesized
    end.
Proof.
  intros Hparse.
  destruct (parseProp_Some_inv _ _ _ _ Hparse)
    as (ret0 & rules & ret' & Hc & -> & Hrules).
  rewrite (rulesOf_classified _ _ _ _ _ Hc).
  pose proof (classify_accepts _ _ _ _ _ Hc) as (Hloc & Hdef0 & _).
  pose proof (nilableDefault_same ret') as [(Hln & _ & _ & Htn) _].
  rewrite Htn. cbv zeta.
  assert (loc ret' = send_loc send /\
          default_ ret' =
            match rules with
            | Some h =>
                if hasTruthyHashValue ctx h Names.factory
                then MK_RaiseUnimplemented (send_loc send)
                else if hasHashValue ctx h Names.default_
                then (extractHashValue ctx h Names.default_).1.2
                else nullptr
            | None => nullptr
            end) as [Hl Hd].
  { destruct rules as [h|].
    - destruct (parseRules_returns ctx h ret0)
        as (? & ? & ? & ret'' & ? & _ & Hp & (Hl & _) & Hd & _).
      rewrite Hp in Hrules. injection Hrules as <- _.
      split; [congruence|]. rewrite Hd. unfold rulesDefault.
      destruct (hasTruthyHashValue ctx h Names.factory).
      + destruct (hasTruthyHashValue ctx h Names.immutable); simpl; congruence.
      + destruct (hasHashValue ctx h Names.default_).
        * destruct (extractHashValue ctx h Names.default_) as [[k v] r].
          destruct (hasTruthyHashValue ctx h Names.immutable); reflexivity.
        * destruct (hasTruthyHashValue ctx h Names.immutable); simpl;
            exact Hdef0.
    - destruct Hrules as [-> _]. split; assumption. }
  unfold nilableDefault.
  destruct (isNull (default_ ret')) eqn:Hnull.
  - assert (default_ (if true && isTNilable (type ret')
                      then set_default_ (MK_Nil (loc ret')) ret' else ret')
            = if isTNilable (type ret') then MK_Nil (send_loc send) else nullptr)
      as ->.
    { destruct (isTNilable (type ret')); simpl; [congruence|].
      destruct (default_ ret'); try discriminate. reflexivity. }
    rewrite Hd in Hnull.
    destruct rules as [h|]; [|reflexivity].
    destruct (hasTruthyHashValue ctx h Names.factory); [discriminate|].
    destruct (hasHashValue ctx h Names.default_); [|reflexivity].
    cbv zeta. rewrite Hnull. reflexivity.
  - simpl. rewrite Hd. rewrite Hd in Hnull.
    destruct rules as [h|]; [|discriminate].
    destruct (hasTruthyHashValue ctx h Names.factory); [reflexivity|].
    destruct (hasHashValue ctx h Names.default_); [|discriminate].
    cbv zeta. rewrite Hnull. reflexivity.
Qed.

(** *** The foreign key *)

Lemma selectMacro_fresh (send : SendNode) (ret0 ret1 : PropInfo) :
  selectMacro send ret0 = Some ret1 ->
  foreign ret1 = foreign ret0 /\ ifunset ret1 = ifunset ret0.
Proof.
  unfold selectMacro.
  repeat (match goal with
          | |- context [if ?b then _ else _] => destruct b
          end; try (intros [= <-]; repeat split)).
Qed.

Lemma classify_fresh (ctx : Context) (send : SendNode) ret0 rules ops :
  classify ctx send = Returns (Some (ret0, rules)) ops ->
  foreign ret0 = nullptr /\ ifunset ret0 = nullptr.
Proof.
  intros Hc.
  destruct (classify_inv _ _ _ _ _ Hc)
    as (ret1 & ret2 & Hsel & Hname & Htype & _).
  apply selectMacro_fresh in Hsel. simpl in Hsel. destruct Hsel as [Hf1 Hu1].
  apply propName_immutable in Hname. destruct Hname as (_ & Hf2 & Hu2).
  apply propType_immutable in Htype. destruct Htype as (_ & Hf0 & Hu0 & _).
  split; congruence.
Qed.

Lemma rulesDefault_rules (ctx : Context) (h : HashNode) (ret : PropInfo) :
  (rulesDefault ctx h ret).2 = rulesAfterDefault ctx h.
Proof.
  unfold rulesDefault, rulesAfterDefault.
  destruct (hasTruthyHashValue ctx h Names.factory); [reflexivity|].
  destruct (hasHashValue ctx h Names.default_); [|reflexivity].
  destruct (extractHashValue ctx h Names.default_) as [[k v] r]. reflexivity.
Qed.

Lemma rulesComputedBy_rules (ctx : Context) (rules : HashNode)
    (ret : PropInfo) retc rulesc opsc :
  rulesComputedBy ctx rules ret = Returns (retc, rulesc) opsc ->
  rulesc = (if hasTruthyHashValue ctx rules Names.computedBy
            then (extractHashValue ctx rules Names.computedBy).2
            else rules) /\
  forall l, ~ In (BeginError l PropForeignStrict) opsc.
Proof.
  unfold rulesComputedBy.
  destruct (hasTruthyHashValue ctx rules Names.computedBy).
  - destruct (extractHashValue ctx rules Names.computedBy) as [[k v] r].
    destruct (symbolLit v) as [[litLoc litName]|].
    + intros [= _ <- <-]. split; [reflexivity|intros l []].
    + intros Hb. apply bind_Returns in Hb.
      destruct Hb as (u & ops1 & ops2 & Hbe & [= _ <- <-] & ->).
      split; [reflexivity|]. unfold beginError, tell in Hbe.
      injection Hbe as _ <-.
      intros l Hin. rewrite app_nil_r in Hin.
      destruct Hin as [Hin|Hin]; [discriminate|].
      destruct (errorGranted ctx (exprLoc v) ComputedBySymbol);
        simpl in Hin; intuition discriminate.
  - intros [= _ <- <-]. split; [reflexivity|intros l []].
Qed.

Lemma rulesForeign_cases (ctx : Context) (rules : HashNode)
    (ret : PropInfo) retf rulesf opsf :
  rulesForeign ctx rules ret = Returns (retf, rulesf) opsf ->
  let val := (extractHashValue ctx rules Names.foreign).1.2 in
  foreign retf =
    (if isNull val then foreign ret
     else if isNull (thunkBody ctx val) then val else thunkBody ctx val) /\
  opsf =
    (if negb (isNull val) && isNull (thunkBody ctx val)
     then BeginError (exprLoc val) PropForeignStrict ::
          (if errorGranted ctx (exprLoc val) PropForeignStrict
           then [SetHeader "The argument to `{}` must be a lambda" "foreign:";
                 ReplaceWith "Convert to lambda"
                   (mkLoc (file ctx) (exprLoc val)) "-> {{{}}}"
                   (source ctx (mkLoc (file ctx) (exprLoc val)))]
           else [])
     else []).
Proof.
  unfold rulesForeign.
  destruct (extractHashValue ctx rules Names.foreign) as [[fk val] r]. simpl.
  destruct (isNull val); simpl.
  - intros [= <- _ <-]. split; reflexivity.
  - destruct (isNull (thunkBody ctx val)); simpl.
    + intros [= <- _ <-]. rewrite app_nil_r. split; reflexivity.
    + intros [= <- _ <-]. split; reflexivity.
Qed.

(** X7.  The [foreign] option.  Without an options map the record has no
    foreign expression.  With one, let [val] be the value taken out of the
    map under [foreign]: a null value leaves the record without foreign
    expression; a thunk is replaced by its body, silently; any other value
    is kept as it is, and the sink is asked for a PropForeignStrict
    diagnostic at the value, which, when granted, carries the suggestion to
    wrap the source text of the value in a lambda.  No other case asks for
    that diagnostic. *)
Theorem parseProp_foreign (ctx : Context) (send : SendNode)
    (ret : PropInfo) (ops : list SinkOp) :
  parseProp ctx send = Returns (Some ret) ops ->
  match rulesOf send with
  | None => foreign ret = nullptr
  | Some h =>
      let val := foreignValue ctx h in
      foreign ret =
        (if isNull val then nullptr
         else if isNull (thunkBody ctx val) then val else thunkBody ctx val) /\
      ((exists l, In (BeginError l PropForeignStrict) ops) <->
       isNull val = false /\ isNull (thunkBody ctx val) = true) /\
      (isNull val = false -> isNull (thunkBody ctx val) = true ->
       In (BeginError (exprLoc val) PropForeignStrict) ops /\
       (errorGranted ctx (exprLoc val) PropForeignStrict = true ->
        In (ReplaceWith "Convert to lambda"
              (mkLoc (file ctx) (exprLoc val)) "-> {{{}}}"
              (source ctx (mkLoc (file ctx) (exprLoc val)))) ops))
  end.
Proof.
  intros Hparse.
  destruct (parseProp_Some_inv _ _ _ _ Hparse)
    as (ret0 & rules & ret' & Hc & -> & Hrules).
  rewrite (rulesOf_classified _ _ _ _ _ Hc).
  destruct (classify_fresh _ _ _ _ _ Hc) as [Hf0 _].
  destruct (nilableDefault_fields ret') as (_ & -> & _).
  destruct rules as [h|]; [|destruct Hrules as [-> _]; exact Hf0].
  destruct (parseRules_steps _ _ _ _ _ Hrules)
    as (retc & rulesc & opsc & retf & rulesf & opsf & Hcb & Hf & -> & ->).
  destruct (rulesIfunset_fields ctx rulesf retf) as (_ & -> & _).
  rewrite rulesDefault_rules in Hcb.
  pose proof (rulesComputedBy_rules _ _ _ _ _ _ Hcb) as [Hrc Hnoc].
  pose proof (rulesComputedBy_fields _ _ _ _ _ _ Hcb) as (_ & Hfc & _).
  destruct (rulesDefault_fields ctx h ret0) as (_ & Hfd & _).
  pose proof (rulesForeign_cases _ _ _ _ _ _ Hf) as [Hfor Hops].
  cbv zeta in Hfor, Hops.
  assert ((extractHashValue ctx rulesc Names.foreign).1.2 = foreignValue ctx h)
    as Hval by (rewrite Hrc; reflexivity).
  rewrite Hval in Hfor, Hops. cbv zeta.
  set (val := foreignValue ctx h) in *.
  split; [|split].
  - rewrite Hfor. destruct (isNull val); [congruence|reflexivity].
  - split.
    + intros [l Hin]. apply in_app_or in Hin.
      destruct Hin as [Hin|Hin]; [destruct (Hnoc l Hin)|].
      rewrite Hops in Hin.
      destruct (isNull val); [destruct Hin|].
      destruct (isNull (thunkBody ctx val)); [split; reflexivity|destruct Hin].
    + intros [Hv Ht]. exists (exprLoc val). apply in_or_app. right.
      rewrite Hops, Hv, Ht. left. reflexivity.
  - intros Hv Ht. rewrite Hops, Hv, Ht. simpl. split.
    + apply in_or_app. right. left. reflexivity.
    + intros ->. apply in_or_app. right. right. right. left. reflexivity.
Qed.

(** X8.  The foreign accessors among the nodes: a record without foreign
    expression yields no accessor and no one-parameter sig; a record with
    one yields, after getter and setter and before the mutator class, the
    sig and method of [name_] and of [name_!], returning the nilable and the
    plain clone of the foreign expression, or the untyped type for both
    when the foreign expression cannot be cloned as a type. *)
Theorem processProp_foreign_accessors (ctx : Context) (ret : PropInfo)
    (forTStruct : bool) :
  existsb isForeignNode (processProp ctx ret forTStruct)
    = negb (isNull (foreign ret)) /\
  (isNull (foreign ret) = false ->
   processProp ctx ret forTStruct =
     processGetter ret forTStruct ++ processSetter ret ++
     (if isNull (dupType (foreign ret))
      then foreignAccessors ctx ret (MK_Untyped (loc ret)) (MK_Untyped (loc ret))
      else foreignAccessors ctx ret
             (MK_Nilable (loc ret) (dupType (foreign ret)))
             (dupType (foreign ret))) ++
     processMutator ctx ret).
Proof.
  rewrite processProp_parts. split.
  - rewrite processGetter_nodes, processSetter_nodes, !existsb_app.
    assert (existsb isForeignNode (processMutator ctx ret) = false) as ->.
    { pose proof (processMutator_nodes ctx ret) as Hmut.
      destruct (isCollectionType ctx ret).
      - destruct Hmut as [m ->]. reflexivity.
      - rewrite Hmut. reflexivity. }
    assert (existsb isForeignNode
              (if isImmutable ret then [] else [setterSig ret; setterDef ret])
            = false) as -> by (destruct (isImmutable ret); reflexivity).
    unfold processForeign. simpl.
    destruct (isNull (foreign ret)); simpl; [reflexivity|].
    destruct (isNull (dupType (foreign ret))); reflexivity.
  - intros Hf. unfold processForeign. rewrite Hf. simpl.
    destruct (isNull (dupType (foreign ret))); reflexivity.
Qed.

(** X9.  A symbol literal under a truthy [computed_by] is recorded with
    its location and without a diagnostic; when the symbol names something,
    the getter that replaces the call checks the class method of that name
    against the declared type. *)
Theorem parseProp_computedBy_recorded (ctx : Context) (send : SendNode)
    (ret0 : PropInfo) (h : HashNode) (ops0 : list SinkOp)
    (key : Expression) (litLoc : LocOffsets) (method : NameRef)
    (rules' : HashNode) (forTStruct : bool) :
  classify ctx send = Returns (Some (ret0, Some h)) ops0 ->
  hasTruthyHashValue ctx (rulesAfterDefault ctx h) Names.computedBy = true ->
  extractHashValue ctx (rulesAfterDefault ctx h) Names.computedBy
    = ((key, Literal litLoc (LitSymbol method)), rules') ->
  exists ret ops,
    parseProp ctx send = Returns (Some ret) ops /\
    computedByMethodName ret = method /\
    computedByMethodNameLoc ret = litLoc /\
    (forall l, ~ In (BeginError l ComputedBySymbol) ops) /\
    (exists_ method = true ->
     processProp ctx ret forTStruct !! 1%nat =
       Some (mkGet (send_loc send) (name ret) (computedGetterBody ret))).
Proof.
  intros Hc Ht He.
  rewrite (parseProp_accepted _ _ _ _ _ Hc).
  pose proof (classify_accepts _ _ _ _ _ Hc) as (Hloc & _).
  destruct (parseRules_returns ctx h ret0)
    as (retc & rulesc & opsc & ret' & opsf & Hcb & Hp & (Hl & _) & _ & Hcn & Hopsf).
  destruct (parseRules_steps _ _ _ _ _ Hp)
    as (retc' & rulesc' & opsc' & retf & rulesf & opsf' & Hcb' & Hf & Hret' & Hops').
  rewrite Hcb in Hcb'. injection Hcb' as <- <- <-.
  apply app_inv_head in Hops'. subst opsf'.
  rewrite rulesDefault_rules in Hcb.
  unfold rulesComputedBy in Hcb. rewrite Ht, He in Hcb. simpl in Hcb.
  injection Hcb as <- _ <-.
  assert (computedByMethodNameLoc ret' = litLoc) as Hcl.
  { rewrite Hret'.
    destruct (rulesIfunset_fields ctx rulesf retf) as (_ & _ & ->).
    apply rulesForeign_fields in Hf. destruct Hf as (_ & _ & _ & _ & -> & _).
    reflexivity. }
  pose proof (nilableDefault_same ret') as [(Hln & Hnn & _) Hcnn].
  pose proof (nilableDefault_fields ret') as (_ & _ & _ & Hcln).
  exists (nilableDefault ret'), (([] ++ opsf) ++ []).
  split; [rewrite Hp; reflexivity|]. simpl in Hcn.
  split; [congruence|]. split; [congruence|]. split.
  - intros l Hin. simpl in Hin. rewrite app_nil_r in Hin. exact (Hopsf l Hin).
  - intros Hex. rewrite processProp_parts, processGetter_nodes. simpl.
    rewrite Hcnn, Hcn, Hex. do 3 f_equal. congruence.
Qed.

(** X10.  A complete [prop] or [const] call is accepted: when the first
    argument is a symbol literal, the second clones as a type, there are two
    arguments or three with a map literal last, and the two assertions on
    the way hold (they always do outside debug builds), parseProp returns a
    record. *)
Theorem parseProp_plain_complete (ctx : Context) (send : SendNode)
    (symLoc : LocOffsets) (symName : NameRef) :
  isPlainMacro (send_fun send) = true ->
  send_args send !! 0%nat = Some (Literal symLoc (LitSymbol symName)) ->
  isNull (dupType (at_ (send_args send) 1)) = false ->
  length (send_args send) = 2%nat \/
    (length (send_args send) = 3%nat /\
     is_Some (cast_Hash (at_ (send_args send) 2))) ->
  debug_mode && negb (startsWithColon (source ctx (mkLoc (file ctx) symLoc)))
    = false ->
  debug_mode && isNull (dupType (dupType (at_ (send_args send) 1))) = false ->
  exists ret ops, parseProp ctx send = Returns (Some ret) ops.
Proof.
  intros Hplain Harg0 Hdup Hshape Henf1 Henf2.
  assert (exists ret1, selectMacro send (PropInfo_new (send_loc send)) = Some ret1
            /\ name ret1 = noName /\ type ret1 = nullptr)
    as (ret1 & Hsel & Hn1 & Ht1).
  { unfold isPlainMacro in Hplain. unfold selectMacro.
    apply orb_true_iff in Hplain.
    destruct Hplain as [Hf|Hf]; apply bool_decide_eq_true in Hf; rewrite Hf;
      simpl; eexists; repeat split. }
  assert ((length (send_args send) < 4)%nat /\
          (length (send_args send) =? 1)%nat = false /\
          empty_ (send_args send) = false) as (Hlt & Hone & Hempty).
  { destruct (send_args send) as [|a0 [|a1 rest]]; simpl in *;
      destruct Hshape as [Hs|[Hs _]]; try discriminate; repeat split; lia. }
  assert (exists rules, propRules send = Some rules) as [rules Hpr].
  { unfold propRules, deepCopy. rewrite Hempty. simpl.
    destruct Hshape as [Hs|[Hs [hh Hh]]].
    - rewrite Hs, andb_false_r. eauto.
    - assert (back (send_args send) = at_ (send_args send) 2) as ->.
      { destruct (send_args send) as [|a0 [|a1 [|a2 [|a3 more]]]];
          try discriminate. reflexivity. }
      rewrite Hh. simpl. eauto. }
  assert (exists ret0, classify ctx send = Returns (Some (ret0, rules)) [])
    as [ret0 Hc].
  { unfold classify. rewrite Hsel.
    apply Nat.leb_gt in Hlt. rewrite Hlt.
    unfold propName. rewrite Hn1, Hempty. simpl.
    unfold at_ at 1. rewrite Harg0. simpl.
    unfold ENFORCE at 1. rewrite Henf1. rewrite !bind_pure.
    unfold propType. simpl. rewrite Ht1. simpl. rewrite Hone, Hdup.
    unfold ENFORCE. simpl. rewrite negb_involutive, Henf2.
    rewrite !bind_pure. rewrite Hpr. eexists. reflexivity. }
  rewrite (parseProp_accepted _ _ _ _ _ Hc).
  destruct rules as [hh|].
  - destruct (parseRules_returns ctx hh ret0)
      as (? & ? & ? & ret' & ? & _ & Hp & _).
    rewrite Hp. do 2 eexists. reflexivity.
  - do 2 eexists. reflexivity.
Qed.

Lemma propType_enforced (send : SendNode) (ret0 ret : PropInfo) ops :
  propType send ret0 = Returns (Some ret) ops ->
  debug_mode = true -> isNull (dupType (type ret)) = false.
Proof.
  unfold propType. intros Hb Hdebug.
  destruct (if isNull (type ret0) then _ else _) as [ret'|]; [|discriminate].
  apply bind_Returns in Hb.
  destruct Hb as (u & ops1 & ops2 & He & [= <-] & _).
  unfold ENFORCE in He. rewrite Hdebug in He. simpl in He.
  destruct (isNull (dupType (type ret'))); [discriminate|reflexivity].
Qed.

(** X18.  What processProp can rely on: the record of an accepted call
    carries the location of the call and a type that is not null, the call
    has fewer than four arguments, and in a debug build the type is known
    to clone as a type. *)
Theorem parseProp_record_invariant (ctx : Context) (send : SendNode)
    (ret : PropInfo) (ops : list SinkOp) :
  parseProp ctx send = Returns (Some ret) ops ->
  loc ret = send_loc send /\
  isNull (type ret) = false /\
  (length (send_args send) < 4)%nat /\
  (debug_mode = true -> isNull (dupType (type ret)) = false).
Proof.
  intros Hparse.
  destruct (parseProp_Some_inv _ _ _ _ Hparse)
    as (ret0 & rules & ret' & Hc & -> & Hrules).
  assert (sameDeclaration ret0 (nilableDefault ret')) as (Hl & _ & _ & Ht).
  { apply sameDeclaration_trans with ret'; [|apply nilableDefault_same].
    destruct rules as [h|].
    - destruct (parseRules_returns ctx h ret0)
        as (? & ? & ? & ret'' & ? & _ & Hp & Hs & _).
      rewrite Hp in Hrules. injection Hrules as <- _. exact Hs.
    - destruct Hrules as [-> _]. apply sameDeclaration_refl. }
  rewrite Hl, Ht.
  pose proof (classify_accepts _ _ _ _ _ Hc) as (Hloc & _ & _ & Hty & _ & Hlen).
  destruct (classify_inv _ _ _ _ _ Hc) as (ret1 & ret2 & _ & _ & Htype & _).
  repeat split; try assumption.
  exact (propType_enforced _ _ _ _ Htype).
Qed.

End Classification.

Section ClassBody.
Context {env : Env}.

(** X11.  Whether the class is struct-derived changes one node only: the
    replacement sequence of a record has the same length either way and the
    same node at every position but the second, the getter; with a
    computed-by method or an if-unset value it is the same sequence
    altogether. *)
Theorem processProp_struct_flag (ctx : Context) (ret : PropInfo) :
  length (processProp ctx ret true) = length (processProp ctx ret false) /\
  (forall i, i <> 1%nat ->
     processProp ctx ret true !! i = processProp ctx ret false !! i) /\
  (exists_ (computedByMethodName ret) = true \/ isNull (ifunset ret) = false ->
     processProp ctx ret true = processProp ctx ret false).
Proof.
  rewrite !processProp_parts, !processGetter_nodes.
  split; [reflexivity|]. split.
  - intros [|[|i]] Hi; [reflexivity|contradiction|reflexivity].
  - intros [-> | ->]; [reflexivity|].
    destruct (exists_ (computedByMethodName ret)); reflexivity.
Qed.

Lemma filter_partition_Permutation {A : Type} (f : A -> bool) (l : list A) :
  List.filter f l ++ List.filter (fun x => negb (f x)) l ≡ₚ l.
Proof.
  induction l as [|a l IH]; simpl; [reflexivity|].
  destruct (f a); simpl.
  - constructor. exact IH.
  - rewrite <- Permutation_middle. constructor. exact IH.
Qed.

(** X12.  The constructor mkTStructInitialize returns gives every record
    exactly one parameter: there is a rearrangement of the records of the
    class such that the keys of the sig, the types of the sig and the
    parameters of [initialize] are, position by position, the name, the type
    and the parameter of the records in that order (a keyword parameter,
    optional with the default of the record when it has one), while the
    body assigns the field of every record in declaration order. *)
Theorem initParams_each_record_once (ctx : Context) (klassLoc : LocOffsets)
    (props : list PropInfo) :
  exists order,
    order ≡ₚ props /\
    mkTStructInitialize ctx klassLoc props =
      [MK_SigVoid klassLoc
         (MK_Hash klassLoc (map sigKey order) (map type order));
       MK_SyntheticMethod klassLoc (mkLoc (file ctx) klassLoc) Names.initialize
         (map paramOf order)
         (MK_InsSeq klassLoc (map fieldAssign props) (MK_ZSuper klassLoc))].
Proof.
  exists (requiredProps props ++ optionalProps props). split.
  - unfold requiredProps, optionalProps.
    apply (filter_partition_Permutation (fun p => isNull (default_ p))).
  - unfold mkTStructInitialize, initBody.
    rewrite initParams_partition, foldl_addAssign. simpl.
    rewrite (map_app paramOf).
    assert (map paramOf (requiredProps props)
            = map requiredArg (requiredProps props)) as ->.
    { apply map_ext_in. intros p Hp. unfold requiredProps in Hp.
      apply filter_In in Hp. destruct Hp as [_ Hp].
      unfold paramOf. rewrite Hp. reflexivity. }
    assert (map paramOf (optionalProps props)
            = map optionalArg (optionalProps props)) as ->.
    { apply map_ext_in. intros p Hp. unfold optionalProps in Hp.
      apply filter_In in Hp. destruct Hp as [_ Hp].
      unfold paramOf. destruct (isNull (default_ p)); [discriminate|reflexivity]. }
    reflexivity.
Qed.

Lemma scan_aborts (ctx : Context) (forTStruct : bool) (stats : list Expression) :
  forall (addr : nat) (acc : Scan),
  forallb (classifies ctx) stats = false ->
  exists msg, scan ctx forTStruct addr stats acc = Aborts msg.
Proof.
  induction stats as [|stat stats IH]; intros addr acc Hall; [discriminate|].
  simpl in Hall. simpl.
  destruct (classifies ctx stat) eqn:Hstat.
  - rewrite (scanStat_spec ctx forTStruct acc addr stat Hstat).
    simpl in Hall.
    destruct (IH (S addr)
                (match recordOf ctx stat with
                 | Some propInfo =>
                     {| replaceNodes :=
                          <[addr := processProp ctx propInfo forTStruct]>
                            (replaceNodes acc);
                        props := props acc ++ [propInfo] |}
                 | None => acc
                 end) Hall) as [msg Hmsg].
    exists msg. unfold bind. rewrite Hmsg. reflexivity.
  - unfold classifies in Hstat. unfold scanStat.
    destruct (cast_Send stat) as [send|]; [|discriminate].
    destruct (parseProp ctx send) as [r ops|msg]; [discriminate|].
    exists msg. reflexivity.
Qed.

Lemma run_Returns_classifies (ctx : Context) (klass klass' : ClassDef) ops :
  runningUnderAutogen ctx = false ->
  run ctx klass = Returns klass' ops ->
  forallb (classifies ctx) (klass_rhs klass) = true.
Proof.
  intros Hauto Hrun.
  destruct (forallb (classifies ctx) (klass_rhs klass)) eqn:Hall; [reflexivity|].
  exfalso. unfold run in Hrun. rewrite Hauto in Hrun.
  destruct (scan_aborts ctx (existsb isTStruct (klass_ancestors klass))
              (klass_rhs klass) 0 (mkScan ∅ []) Hall) as [msg Hmsg].
  rewrite Hmsg in Hrun. discriminate.
Qed.

Lemma ENFORCE_release (condition : bool) (message : string) :
  debug_mode = false -> ENFORCE condition message = pure tt.
Proof. intros Hdebug. unfold ENFORCE. rewrite Hdebug. reflexivity. Qed.

Lemma propName_release (ctx : Context) (send : SendNode) (ret : PropInfo) :
  debug_mode = false -> exists r, propName ctx send ret = Returns r [].
Proof.
  intros Hdebug. unfold propName.
  destruct (negb (exists_ (name ret))); [|eexists; reflexivity].
  destruct (empty_ (send_args send)); [eexists; reflexivity|].
  destruct (symbolLit _) as [[symLoc symName]|]; [|eexists; reflexivity].
  rewrite (ENFORCE_release _ _ Hdebug). eexists. reflexivity.
Qed.

Lemma propType_release (send : SendNode) (ret : PropInfo) :
  debug_mode = false -> exists r, propType send ret = Returns r [].
Proof.
  intros Hdebug. unfold propType.
  destruct (if isNull (type ret) then _ else _) as [ret'|];
    [|eexists; reflexivity].
  rewrite (ENFORCE_release _ _ Hdebug). eexists. reflexivity.
Qed.

Lemma parseProp_release (ctx : Context) (send : SendNode) :
  debug_mode = false -> exists r ops, parseProp ctx send = Returns r ops.
Proof.
  intros Hdebug.
  assert (exists r, classify ctx send = Returns r []) as [r Hc].
  { unfold classify.
    destruct (selectMacro send _) as [ret1|]; [|eexists; reflexivity].
    destruct (4 <=? length (send_args send))%nat; [eexists; reflexivity|].
    destruct (propName_release ctx send ret1 Hdebug) as [[ret2|] ->];
      [|eexists; reflexivity].
    unfold bind at 1.
    destruct (propType_release send ret2 Hdebug) as [[ret3|] ->];
      [|eexists; reflexivity].
    unfold bind.
    destruct (propRules send); eexists; reflexivity. }
  destruct r as [[ret0 rules]|].
  - rewrite (parseProp_accepted _ _ _ _ _ Hc). destruct rules as [h|].
    + destruct (parseRules_returns ctx h ret0)
        as (? & ? & ? & ret' & ? & _ & Hp & _).
      rewrite Hp. eauto.
    + eauto.
  - rewrite (parseProp_rejected _ _ _ Hc). eauto.
Qed.

(** X13.  Outside autogeneration mode the pass returns exactly when the
    classification of every statement runs to its end: the assertion of
    Prop::run itself, that a record yields at least one node, never fails,
    since a record always yields its sig and getter.  Outside debug builds
    every classification runs to its end, so the pass always returns. *)
Theorem run_stops_only_in_classification (ctx : Context) (klass : ClassDef) :
  runningUnderAutogen ctx = false ->
  ((exists klass' ops, run ctx klass = Returns klass' ops) <->
   forallb (classifies ctx) (klass_rhs klass) = true) /\
  (forall ret forTStruct, (2 <= length (processProp ctx ret forTStruct))%nat) /\
  (debug_mode = false -> exists klass' ops, run ctx klass = Returns klass' ops).
Proof.
  intros Hauto. split; [|split].
  - split.
    + intros (klass' & ops & Hrun).
      exact (run_Returns_classifies _ _ _ _ Hauto Hrun).
    + intros Hall. rewrite (run_returns ctx klass Hauto Hall). eauto.
  - intros ret forTStruct.
    rewrite processProp_parts, processGetter_nodes. simpl. lia.
  - intros Hdebug.
    assert (forallb (classifies ctx) (klass_rhs klass) = true) as Hall.
    { apply forallb_forall. intros stat _. unfold classifies.
      destruct (cast_Send stat) as [send|]; [|reflexivity].
      destruct (parseProp_release ctx send Hdebug) as (r & ops & ->).
      reflexivity. }
    rewrite (run_returns ctx klass Hauto Hall). eauto.
Qed.

Lemma statOps_unrecorded (ctx : Context) (stat : Expression) :
  classifies ctx stat = true -> recordOf ctx stat = None -> statOps ctx stat = [].
Proof.
  unfold classifies, recordOf, statOps.
  destruct (cast_Send stat) as [send|]; [|reflexivity].
  destruct (parseProp ctx send) as [[ret|] ops|msg] eqn:Hparse;
    [discriminate| |discriminate].
  intros _ _. exact (parseProp_None_ops _ _ _ Hparse).
Qed.

Lemma unrecorded_body (ctx : Context) (forTStruct : bool)
    (stats : list Expression) :
  forallb (classifies ctx) stats = true ->
  (forall stat, In stat stats -> recordOf ctx stat = None) ->
  omap (recordOf ctx) stats = [] /\
  spec_rebuilt ctx forTStruct stats = stats /\
  concat (map (statOps ctx) stats) = [].
Proof.
  unfold spec_rebuilt.
  induction stats as [|stat stats IH]; intros Hall Hnone; [repeat split|].
  simpl in Hall. apply andb_true_iff in Hall. destruct Hall as [Hstat Hall].
  assert (recordOf ctx stat = None) as Hrec by (apply Hnone; left; reflexivity).
  destruct (IH Hall) as (Ho & Hr & Hc).
  { intros s Hs. apply Hnone. right. exact Hs. }
  split; [|split].
  - change (omap (recordOf ctx) (stat :: stats))
      with (match recordOf ctx stat with
            | Some p => p :: omap (recordOf ctx) stats
            | None => omap (recordOf ctx) stats
            end).
    rewrite Hrec. exact Ho.
  - change (spec_emit ctx forTStruct stat ++
            concat (map (spec_emit ctx forTStruct) stats) = stat :: stats).
    rewrite Hr. unfold spec_emit, storedReplacement. rewrite Hrec. reflexivity.
  - change (statOps ctx stat ++ concat (map (statOps ctx) stats) = []).
    rewrite Hc, (statOps_unrecorded ctx stat Hstat Hrec). reflexivity.
Qed.

(** X14.  A class body without a recognised declaration comes back as it
    was, and the error sink is left alone; only in a struct-derived class
    the constructor without parameters is put in front: an empty sig and an
    [initialize] whose body is the call of the superclass constructor. *)
Theorem run_without_declarations (ctx : Context) (klass : ClassDef) :
  runningUnderAutogen ctx = false ->
  forallb (classifies ctx) (klass_rhs klass) = true ->
  (forall stat, In stat (klass_rhs klass) -> recordOf ctx stat = None) ->
  run ctx klass =
    Returns
      (mkClassDef (klass_loc klass) (klass_name klass) (klass_ancestors klass)
         ((if existsb isTStruct (klass_ancestors klass)
           then [MK_SigVoid (klass_loc klass)
                   (MK_Hash (klass_loc klass) [] []);
                 MK_SyntheticMethod (klass_loc klass)
                   (mkLoc (file ctx) (klass_loc klass)) Names.initialize []
                   (MK_InsSeq (klass_loc klass) []
                      (MK_ZSuper (klass_loc klass)))]
           else []) ++ klass_rhs klass))
      [].
Proof.
  intros Hauto Hall Hnone.
  rewrite (run_returns ctx klass Hauto Hall).
  destruct (unrecorded_body ctx (existsb isTStruct (klass_ancestors klass))
              (klass_rhs klass) Hall Hnone) as (-> & -> & ->).
  reflexivity.
Qed.

(** X15.  Every operation the pass performs on the error sink comes from
    the classification of a statement of the class body that was accepted
    as a declaration, and the operations appear statement by statement in
    the order of the body. *)
Theorem run_diagnostics_provenance (ctx : Context) (klass klass' : ClassDef)
    (ops : list SinkOp) :
  run ctx klass = Returns klass' ops ->
  (runningUnderAutogen ctx = false ->
   ops = concat (map (statOps ctx) (klass_rhs klass))) /\
  forall op, In op ops ->
    exists stat send ret sops,
      In stat (klass_rhs klass) /\ cast_Send stat = Some send /\
      parseProp ctx send = Returns (Some ret) sops /\ In op sops.
Proof.
  intros Hrun.
  destruct (runningUnderAutogen ctx) eqn:Hauto.
  { unfold run in Hrun. rewrite Hauto in Hrun. injection Hrun as _ <-.
    split; [discriminate|intros op []]. }
  pose proof (run_Returns_classifies _ _ _ _ Hauto Hrun) as Hall.
  rewrite (run_returns ctx klass Hauto Hall) in Hrun.
  injection Hrun as _ <-. split; [reflexivity|].
  intros op Hin. apply in_concat in Hin. destruct Hin as (sops & Hs & Hop).
  apply in_map_iff in Hs. destruct Hs as (stat & <- & Hstat).
  unfold statOps in Hop.
  destruct (cast_Send stat) as [send|] eqn:Hcast; [|destruct Hop].
  destruct (parseProp ctx send) as [[ret|] sops|msg] eqn:Hparse.
  - exists stat, send, ret, sops. repeat split; assumption.
  - rewrite (parseProp_None_ops _ _ _ Hparse) in Hop. destruct Hop.
  - destruct Hop.
Qed.

End ClassBody.

Lemma parseProp_unrecognized_name_witness :
  ~ In (send_fun attrReaderFoo) macroNames /\
  parseProp (env := RefEnv) refCtx attrReaderFoo = Returns None [].
Proof.
  assert (~ In (send_fun attrReaderFoo) macroNames) as Hnot.
  { simpl. intros [H|[H|[H|[H|[H|[H|[]]]]]]]; discriminate. }
  split; [exact Hnot|].
  apply (parseProp_unrecognized_name (env := RefEnv) refCtx
           (callStat (span 0 16) (UTF8 "attr_reader") [sym (span 12 16) "foo"])
           attrReaderFoo eq_refl Hnot).
Defined.

Lemma parseProp_rejection_silent_witness :
  parseProp (env := RefEnv) refCtx
    (call (span 0 9) Names.prop [sym (span 5 9) "foo"]) = Returns None [] /\
  @nil SinkOp = [].
Proof.
  split; [reflexivity|].
  apply (parseProp_rejection_silent (env := RefEnv) refCtx
           (call (span 0 9) Names.prop [sym (span 5 9) "foo"]) []).
  reflexivity.
Defined.

Lemma parseProp_plain_accepted_witness :
  isPlainMacro (send_fun constFoo) = true /\
  parseProp (env := RefEnv) refCtx constFoo = Returns (Some fooDeclared) [] /\
  name fooDeclared = UTF8 "foo" /\ nameLoc fooDeclared = span 7 10.
Proof.
  split; [reflexivity|]. split; [reflexivity|].
  destruct (parseProp_plain_accepted (env := RefEnv) refCtx constFoo
              fooDeclared [] eq_refl eq_refl)
    as (symLoc & symName & Harg & Hname & Hloc & _).
  injection Harg as <- <-. split; [exact Hname|exact Hloc].
Defined.

(** [prop :foo, String, foreign: -> { Foo }]: the thunk is unwrapped and
    nothing is reported. *)
Example parseProp_foreign_thunk :
  exists ret,
    parseProp (env := RefEnv) refCtx (propForeign lambdaFoo)
      = Returns (Some ret) [] /\
    foreign ret = cnst (span 33 36) "Foo".
Proof. eexists. split; reflexivity. Qed.

(** [created_prop]: named [created], typed as the float type. *)
Example parseProp_created :
  exists ret,
    parseProp (env := RefEnv) refCtx createdProp0 = Returns (Some ret) [] /\
    name ret = Names.created /\
    type ret = MK_Constant (span 0 12) Symbols.Float /\
    nameLoc ret = span 0 7.
Proof. eexists. repeat split. Qed.

(** [prop :foo, String, ifunset: 0] in a struct: the getter does not read
    the field. *)
Example processProp_ifunset_getter :
  exists ret,
    parseProp (env := RefEnv) refCtx propIfunset = Returns (Some ret) [] /\
    processProp (env := RefEnv) refCtx ret true !! 1%nat =
      Some (mkGet (span 0 40) (UTF8 "foo") (MK_RaiseUnimplemented (span 0 40))).
Proof. eexists. split; reflexivity. Qed.

Lemma parseProp_immutability_witness :
  parseProp (env := RefEnv) refCtx constFoo = Returns (Some fooDeclared) [] /\
  isImmutable fooDeclared = true /\
  existsb isSetter (processProp (env := RefEnv) refCtx fooDeclared true) = false.
Proof.
  split; [reflexivity|].
  destruct (parseProp_immutability (env := RefEnv) refCtx constFoo fooDeclared
              [] true eq_refl) as [Himm Hset].
  split; [rewrite Himm; reflexivity|].
  rewrite Hset, Himm. reflexivity.
Defined.

Lemma parseProp_created_merchant_witness :
  exists ret,
    parseProp (env := RefEnv) refCtx merchantProp0 = Returns (Some ret) [] /\
    name ret = Names.merchant /\
    type ret = MK_Constant (span 0 13) Symbols.String /\
    isImmutable ret = true.
Proof.
  eexists. split; [reflexivity|].
  eapply (parseProp_created_merchant (env := RefEnv) refCtx merchantProp0);
    reflexivity.
Defined.

Lemma parseProp_default_cases_witness :
  exists ret,
    parseProp (env := RefEnv) refCtx propNilableDefault = Returns (Some ret) [] /\
    default_ ret = Literal (span 39 40) (LitInteger 1).
Proof.
  eexists. split; [reflexivity|].
  rewrite (parseProp_default_cases (env := RefEnv) refCtx propNilableDefault
             _ [] eq_refl).
  reflexivity.
Defined.

Lemma parseProp_foreign_witness :
  exists ret ops,
    parseProp (env := RefEnv) refCtx (propForeign (cnst (span 28 31) "Foo"))
      = Returns (Some ret) ops /\
    foreign ret = cnst (span 28 31) "Foo" /\
    In (BeginError (span 28 31) PropForeignStrict) ops.
Proof.
  do 2 eexists. split; [reflexivity|].
  pose proof (parseProp_foreign (env := RefEnv) refCtx
                (propForeign (cnst (span 28 31) "Foo")) _ _ eq_refl)
    as (Hforeign & _ & Hasked).
  split; [exact Hforeign|].
  exact (proj1 (Hasked eq_refl eq_refl)).
Defined.

Lemma processProp_foreign_accessors_witness :
  isNull (foreign (set_foreign (cnst (span 33 36) "Foo") factoryDeclared))
    = false /\
  existsb isForeignNode
    (processProp (env := RefEnv) refCtx
       (set_foreign (cnst (span 33 36) "Foo") factoryDeclared) false) = true.
Proof.
  split; [reflexivity|].
  rewrite (proj1 (processProp_foreign_accessors (env := RefEnv) refCtx
                    (set_foreign (cnst (span 33 36) "Foo") factoryDeclared)
                    false)).
  reflexivity.
Defined.

Lemma parseProp_computedBy_recorded_witness :
  exists ret ops,
    parseProp (env := RefEnv) refCtx
      (constComputedBy (sym (span 33 38) "calc")) = Returns (Some ret) ops /\
    computedByMethodName ret = UTF8 "calc" /\
    computedByMethodNameLoc ret = span 33 38.
Proof.
  destruct (parseProp_computedBy_recorded (env := RefEnv) refCtx
              (constComputedBy (sym (span 33 38) "calc")) computedDeclared
              (computedRules (sym (span 33 38) "calc")) []
              (sym (span 20 31) "computed_by") (span 33 38) (UTF8 "calc")
              (mkHashNode (span 20 40) [] []) true eq_refl eq_refl eq_refl)
    as (ret & ops & Hparse & Hname & Hloc & _).
  exists ret, ops. repeat split; assumption.
Defined.

Lemma parseProp_plain_complete_witness :
  isPlainMacro (send_fun propTags) = true /\
  exists ret ops, parseProp (env := RefEnv) refCtx propTags = Returns (Some ret) ops.
Proof.
  split; [reflexivity|].
  apply (parseProp_plain_complete (env := RefEnv) refCtx propTags
           (span 5 10) (UTF8 "tags"));
    try reflexivity.
  left. reflexivity.
Defined.

Lemma parseProp_record_invariant_witness :
  parseProp (env := RefEnv) refCtx propNick
    = Returns (Some (set_default_ (MK_Nil (span 0 30)) nickDeclared)) [] /\
  isNull (@dupType RefEnv
            (type (set_default_ (MK_Nil (span 0 30)) nickDeclared))) = false.
Proof.
  split; [reflexivity|].
  apply (parseProp_record_invariant (env := RefEnv) refCtx propNick
           (set_default_ (MK_Nil (span 0 30)) nickDeclared) [] eq_refl).
  reflexivity.
Defined.

Lemma processProp_struct_flag_witness :
  isNull (ifunset (set_ifunset (Literal (span 28 29) (LitInteger 0))
                     factoryDeclared)) = false /\
  processProp (env := RefEnv) refCtx
    (set_ifunset (Literal (span 28 29) (LitInteger 0)) factoryDeclared) true =
  processProp (env := RefEnv) refCtx
    (set_ifunset (Literal (span 28 29) (LitInteger 0)) factoryDeclared) false.
Proof.
  split; [reflexivity|].
  apply (processProp_struct_flag (env := RefEnv) refCtx
           (set_ifunset (Literal (span 28 29) (LitInteger 0)) factoryDeclared)).
  right. reflexivity.
Defined.

Lemma run_stops_only_in_classification_witness :
  runningUnderAutogen refCtx = false /\
  @debug_mode ReleaseEnv = false /\
  exists klass' ops,
    run (env := ReleaseEnv) refCtx (structClass mixedBody) = Returns klass' ops.
Proof.
  split; [reflexivity|]. split; [reflexivity|].
  apply (run_stops_only_in_classification (env := ReleaseEnv) refCtx
           (structClass mixedBody) eq_refl).
  reflexivity.
Defined.

Lemma run_without_declarations_witness :
  runningUnderAutogen refCtx = false /\
  run (env := RefEnv) refCtx
    (structClass [cnst (span 0 3) "Foo"; propFourArgs]) =
  Returns
    (structClass
       ([MK_SigVoid (span 0 100) (MK_Hash (span 0 100) [] []);
         MK_SyntheticMethod (span 0 100) (mkLoc 0 (span 0 100))
           Names.initialize []
           (MK_InsSeq (span 0 100) [] (MK_ZSuper (span 0 100)))] ++
        [cnst (span 0 3) "Foo"; propFourArgs]))
    [].
Proof.
  split; [reflexivity|].
  apply (run_without_declarations (env := RefEnv) refCtx
           (structClass [cnst (span 0 3) "Foo"; propFourArgs]));
    [reflexivity|reflexivity|].
  intros stat [<-|[<-|[]]]; reflexivity.
Defined.

Lemma run_diagnostics_provenance_witness :
  exists klass' ops,
    run (env := RefEnv) refCtx
      (structClass
         [callStat (span 0 40) Names.const_
            [sym (span 6 10) "foo"; cnst (span 12 18) "String";
             Hash (span 20 40) [sym (span 20 31) "computed_by"]
                  [Literal (span 33 34) (LitInteger 3)]]])
      = Returns klass' ops /\
    ops = [BeginError (span 33 34) ComputedBySymbol;
           SetHeader "Value for `{}` must be a symbol literal" "computed_by"].
Proof.
  destruct (run (env := RefEnv) refCtx _) as [klass' ops|msg] eqn:Hrun;
    [|vm_compute in Hrun; discriminate].
  exists klass', ops. split; [reflexivity|].
  rewrite (proj1 (run_diagnostics_provenance (env := RefEnv) refCtx _ _ _ Hrun)
             eq_refl).
  reflexivity.
Defined.

(** ** The generator of the Proc classes *)

Module GenerateProcsFacts.
Import GenerateProcs.

Lemma append_assoc (a b c : string) :
  String.append (String.append a b) c = String.append a (String.append b c).
Proof.
  induction a as [|x a IH]; [reflexivity|].
  change (String x (String.append (String.append a b) c)
          = String x (String.append a (String.append b c))).
  rewrite IH. reflexivity.
Qed.

Lemma append_nil_r (a : string) : String.append a "" = a.
Proof.
  induction a as [|x a IH]; [reflexivity|].
  change (String x (String.append a "") = String x a).
  rewrite IH. reflexivity.
Qed.

(** The indices of a loop that starts at [first] and makes [count] rounds. *)
Lemma range_step (first : Z) (count : nat) :
  map (fun k => first + Z.of_nat k) (seq 0 (S count)) =
  first :: map (fun k => (first + 1) + Z.of_nat k) (seq 0 count).
Proof.
  simpl. f_equal; [lia|].
  rewrite <- seq_shift, map_map. apply map_ext. intros k. lia.
Qed.

(** A loop whose body appends a text that depends on the index only. *)
Lemma forLoop_appends (body : Z -> string -> string) (text : Z -> string) :
  (forall i out, body i out = String.append out (text i)) ->
  forall (count : nat) (first : Z) (out : string),
    forLoop count first body out =
    String.append out
      (joined (map text (map (fun k => first + Z.of_nat k) (seq 0 count)))).
Proof.
  intros Hbody. induction count as [|count IH]; intros first out.
  - simpl. rewrite append_nil_r. reflexivity.
  - rewrite range_step. simpl. rewrite IH, Hbody, append_assoc. reflexivity.
Qed.

Lemma indices_range (arity : Z) :
  map (fun k => 0 + Z.of_nat k) (seq 0 (Z.to_nat arity)) = indices arity.
Proof. unfold indices. apply map_ext. intros k. lia. Qed.

Lemma concat_joined (sep x : string) (xs : list string) :
  String.concat sep (x :: xs) =
  String.append x (joined (map (String.append sep) xs)).
Proof.
  revert x. induction xs as [|y xs IH]; intros x.
  - simpl. rewrite append_nil_r. reflexivity.
  - change (String.concat sep (x :: y :: xs))
      with (String.append x (String.append sep (String.concat sep (y :: xs)))).
    rewrite IH. simpl. rewrite append_assoc. reflexivity.
Qed.

(** The loop of the parameter list: a separator before every name but the
    first. *)
Lemma forLoop_separated (count : nat) (out : string) :
  forLoop count 0
    (fun i out =>
       let out := if negb (i =? 0)%Z then put out ", " else out in
       putInt (put out "arg") i) out =
  String.append out
    (String.concat ", "
       (map argName (map (fun k => 0 + Z.of_nat k) (seq 0 count)))).
Proof.
  assert (forall (count : nat) (first : Z) (out : string),
            0 < first ->
            forLoop count first
              (fun i out =>
                 let out := if negb (i =? 0)%Z then put out ", " else out in
                 putInt (put out "arg") i) out =
            String.append out
              (joined (map (String.append ", ")
                 (map argName
                    (map (fun k => first + Z.of_nat k) (seq 0 count))))))
    as Hlater.
  { clear. induction count as [|count IH]; intros first out Hpos.
    - simpl. rewrite append_nil_r. reflexivity.
    - rewrite range_step. simpl. rewrite IH by lia.
      destruct (first =? 0)%Z eqn:Hz; [lia|]. simpl.
      unfold put, putInt, argName. rewrite !append_assoc. reflexivity. }
  destruct count as [|count]; [simpl; rewrite append_nil_r; reflexivity|].
  rewrite range_step. simpl map. rewrite concat_joined.
  simpl forLoop. rewrite Hlater by lia.
  unfold put, putInt, argName. rewrite !append_assoc. reflexivity.
Qed.

Lemma emitProc_closed (out : string) (arity : Z) :
  emitProc out arity = String.append out (procClass arity).
Proof.
  unfold emitProc, forBelow.
  rewrite (forLoop_appends
             (fun i out =>
                putNl (put (putInt (put out "  Arg") i) " = type_member(:in)"))
             typeMemberLine)
    by (intros i o; unfold put, putInt, putNl, typeMemberLine;
        rewrite !append_assoc; reflexivity).
  rewrite (forLoop_appends
             (fun i out =>
                putNl (put (putInt (put (put (putInt (put out "    arg") i) ": ")
                                        "Arg") i) ","))
             sigLine)
    by (intros i o; unfold put, putInt, putNl, sigLine;
        rewrite !append_assoc; reflexivity).
  rewrite forLoop_separated, !indices_range.
  unfold put, putInt, putNl, procClass. rewrite !append_assoc.
  reflexivity.
Qed.

(** X16.  emitProc only appends to its stream, and what it appends is the
    class [Proc<arity>] with one type member and one sig parameter per index
    below the arity, and a method [call] whose parameters are the names
    [arg0], [arg1], ... separated by a comma and a space, with no separator
    before the first or after the last; for an arity of zero or less there
    are no type members and no parameters. *)
Theorem emitProc_appends_class (out : string) (arity : Z) :
  emitProc out arity = String.append out (procClass arity) /\
  (arity <= 0 -> indices arity = []).
Proof.
  split; [apply emitProc_closed|].
  intros Hle. unfold indices. replace (Z.to_nat arity) with 0%nat by lia.
  reflexivity.
Qed.

Lemma lineEnds_append (a b : string) :
  lineEnds (String.append a b) = (lineEnds a + lineEnds b)%nat.
Proof.
  induction a as [|x a IH]; [reflexivity|].
  change (String.append (String x a) b) with (String x (String.append a b)).
  simpl. rewrite IH. lia.
Qed.

Lemma lineEnds_pretty_N_go (x : N) (s : string) :
  lineEnds (pretty_N_go x s) = lineEnds s.
Proof.
  revert s. induction (N.lt_wf_0 x) as [x _ IH]; intros s.
  destruct (decide (0 < x)%N) as [Hpos|Hzero].
  - rewrite pretty_N_go_step by exact Hpos.
    rewrite IH by (apply N.div_lt; lia).
    unfold pretty_N_char. repeat case_match; reflexivity.
  - replace x with 0%N by lia. reflexivity.
Qed.

Lemma lineEnds_pretty (i : Z) : lineEnds (pretty i) = 0%nat.
Proof.
  assert (forall p : positive, lineEnds (pretty p) = 0%nat) as Hpos.
  { intros p. unfold pretty, pretty_positive, pretty, pretty_N.
    destruct (decide (N.pos p = 0%N)); [reflexivity|].
    apply lineEnds_pretty_N_go. }
  destruct i as [|p|p]; unfold pretty, pretty_Z; [reflexivity|apply Hpos|].
  rewrite lineEnds_append. rewrite Hpos. reflexivity.
Qed.

Lemma lineEnds_lines (line : Z -> string) (l : list Z) :
  (forall i, lineEnds (line i) = 1%nat) ->
  lineEnds (joined (map line l)) = length l.
Proof.
  intros Hline. induction l as [|i l IH]; simpl; [reflexivity|].
  rewrite lineEnds_append, Hline, IH. reflexivity.
Qed.

Lemma lineEnds_argName (i : Z) : lineEnds (argName i) = 0%nat.
Proof.
  unfold argName. rewrite lineEnds_append, lineEnds_pretty. reflexivity.
Qed.

Lemma lineEnds_separated (l : list Z) :
  lineEnds (joined (map (String.append ", ") (map argName l))) = 0%nat.
Proof.
  induction l as [|j l IH]; [reflexivity|].
  change (lineEnds (String.append (String.append ", " (argName j))
            (joined (map (String.append ", ") (map argName l)))) = 0%nat).
  rewrite !lineEnds_append, IH, lineEnds_argName. reflexivity.
Qed.

Lemma lineEnds_names (l : list Z) :
  lineEnds (String.concat ", " (map argName l)) = 0%nat.
Proof.
  destruct l as [|i l]; [reflexivity|].
  change (map argName (i :: l)) with (argName i :: map argName l).
  rewrite concat_joined, lineEnds_append, lineEnds_argName, lineEnds_separated.
  reflexivity.
Qed.

(** X17.  emitProc writes thirteen lines and two more for every index
    below the arity: a negative arity writes as many lines as arity zero. *)
Theorem emitProc_line_count (out : string) (arity : Z) :
  lineEnds (emitProc out arity) =
  (lineEnds out + 13 + 2 * Z.to_nat arity)%nat.
Proof.
  rewrite emitProc_closed, lineEnds_append. unfold procClass, joined.
  cbn [fold_right].
  rewrite !lineEnds_append, lineEnds_pretty, lineEnds_names.
  change (fold_right String.append "" (map typeMemberLine (indices arity)))
    with (joined (map typeMemberLine (indices arity))).
  change (fold_right String.append "" (map sigLine (indices arity)))
    with (joined (map sigLine (indices arity))).
  rewrite !lineEnds_lines.
  - unfold indices. rewrite length_map, length_seq. simpl. lia.
  - intros i. unfold sigLine.
    rewrite !lineEnds_append, !lineEnds_pretty. reflexivity.
  - intros i. unfold typeMemberLine.
    rewrite !lineEnds_append, !lineEnds_pretty. reflexivity.
Qed.

End GenerateProcsFacts.

Lemma emitProc_appends_class_witness :
  (0 <= 0)%Z /\
  GenerateProcs.emitProc "" 0 =
    String.append "" (GenerateProcs.procClass 0) /\
  GenerateProcs.indices 0 = [].
Proof.
  split; [lia|].
  destruct (GenerateProcsFacts.emitProc_appends_class "" 0) as [Hclass Hnone].
  split; [exact Hclass|apply Hnone; lia].
Defined.
